(** * PortaPack application core: touch conditioning and event dispatch

    A shallow embedding of
    - [touch::calculate_metrics] and [touch::Manager::feed] (namespace
      [touch]), and
    - [MessageHandlerMap] and [EventDispatcher] (event_m0.cpp),
    followed by the properties of the specification that concern them.

    Conventions.
    - C++ [float] is IEEE-754 binary32; it is embedded with the Standard
      Library's [spec_float] operations at precision 24 and maximal exponent
      128, so every value below is computed bit for bit.
    - Raw ADC readings are unsigned counts; C++ promotes them to [int] in the
      arithmetic of [calculate_metrics], so they are embedded in [Z] and the
      integer division is the truncating [Z.quot].
    - A [Widget*] is the path from the root widget to the node (innermost
      child index first); [nullptr] is [None].
    - Calls to collaborators are recorded in a trace, oldest first.
    - A callback (a message handler, [on_touch], [on_key], [on_encoder])
      acts on the application state.  One that re-enters the dispatcher
      through its public interface is outside the embedding: a property
      that needs a stretch of the cycle free of such calls assumes that no
      callback runs in that stretch. *)

From Stdlib Require Import ZArith List Bool Lia.
From Stdlib Require Import Floats.SpecFloat.
From stdpp Require Import base option list strings gmap.

Import ListNotations.

(** ** binary32 arithmetic *)

Module F32.

Definition float := spec_float.

Definition prec : Z := 24.
Definition emax : Z := 128.

(** [float(n)] for an integer [n]: rounded to nearest, ties to even. *)
Definition of_int (n : Z) : float := binary_normalize prec emax n 0 false.

Definition add (a b : float) : float := SFadd prec emax a b.
Definition sub (a b : float) : float := SFsub prec emax a b.
Definition mul (a b : float) : float := SFmul prec emax a b.
Definition div (a b : float) : float := SFdiv prec emax a b.

(** [a < b]; false as soon as one side is NaN. *)
Definition ltb (a b : float) : bool := SFltb a b.

End F32.

Declare Scope f32_scope.
Delimit Scope f32_scope with f32.
Bind Scope f32_scope with F32.float.
Infix "+" := F32.add : f32_scope.
Infix "-" := F32.sub : f32_scope.
Infix "*" := F32.mul : f32_scope.
Infix "/" := F32.div : f32_scope.
Infix "<?" := F32.ltb : f32_scope.

(** ** Geometry and touch events (ui.hpp) *)

Module Point.
(** Modelled from the spec: a 2-D point of the screen ([ui::Point]). *)
Record t := mk { x : Z; y : Z }.
End Point.

Module Rect.
(** Modelled from the spec: [ui::Rect] is declared in ui.hpp; a screen
    rectangle is a position and a size, and contains the points of the
    half-open box they span. *)
Record t := mk { left : Z; top : Z; width : Z; height : Z }.

Definition right (r : t) : Z := left r + width r.
Definition bottom (r : t) : Z := top r + height r.

Definition contains (r : t) (p : Point.t) : bool :=
  (left r <=? Point.x p)%Z && (top r <=? Point.y p)%Z &&
  (Point.x p <? right r)%Z && (Point.y p <? bottom r)%Z.
End Rect.

Module TouchEvent.
(** Modelled from the spec: [ui::TouchEvent], a tagged variant
    [{Start, Move, End}] carrying a point. *)
Inductive Type_ := Start | Move | End_.

Record t := mk { point : Point.t; type : Type_ }.

Definition is_start (e : t) : bool :=
  match type e with Start => true | _ => false end.
End TouchEvent.

(** ** namespace touch *)

Module Touch.

Module Samples.
(** Modelled from the spec: one raw axis-pair reading of the panel
    ([touch::Samples], touch.hpp), four ADC counts. *)
Record t := mk { xp : Z; xn : Z; yp : Z; yn : Z }.
End Samples.

Module Frame.
(** Modelled from the spec: a sample frame ([touch::Frame], touch.hpp), the
    readings for pressure, x and y and the digital contact flag. *)
Record t := mk {
  pressure : Samples.t;
  x : Samples.t;
  y : Samples.t;
  touch : bool
}.
End Frame.

Module Metrics.
Record t := mk { x : F32.float; y : F32.float; r : F32.float }.
End Metrics.

Definition r_x_plate : F32.float := F32.of_int 330.

Definition calculate_metrics (frame : Frame.t) : Metrics.t :=
  let x_max := Samples.xp (Frame.x frame) in
  let x_min := Samples.xn (Frame.x frame) in
  let x_range := (x_max - x_min)%Z in
  let x_position :=
    ((Samples.yp (Frame.x frame) + Samples.yn (Frame.x frame)) ÷ 2)%Z in
  let x_norm := (F32.of_int (x_position - x_min) / F32.of_int x_range)%f32 in

  let y_max := Samples.yn (Frame.y frame) in
  let y_min := Samples.yp (Frame.y frame) in
  let y_range := (y_max - y_min)%Z in
  let y_position :=
    ((Samples.xp (Frame.y frame) + Samples.xn (Frame.y frame)) ÷ 2)%Z in
  let y_norm := (F32.of_int (y_position - y_min) / F32.of_int y_range)%f32 in

  let z_max := Samples.yp (Frame.pressure frame) in
  let z_min := Samples.xn (Frame.pressure frame) in
  let z_range := (z_max - z_min)%Z in
  let z1_position := Samples.xp (Frame.pressure frame) in
  let z1_norm := (F32.of_int (z1_position - z_min) / F32.of_int z_range)%f32 in
  let z2_position := Samples.yn (Frame.pressure frame) in
  let z2_norm := (F32.of_int (z2_position - z_min) / F32.of_int z_range)%f32 in

  let r_touch :=
    (r_x_plate * x_norm * (z2_norm / z1_norm - F32.of_int 1))%f32 in

  {| Metrics.x := x_norm; Metrics.y := y_norm; Metrics.r := r_touch |}.

(** The members of [touch::Manager] that touch.hpp declares are
    parameters: the coordinate filter with [feed] and [reset], the
    stability predicate [point_stable] over the two filters, the filtered
    point, the pressure threshold and the calibration constants (each at
    its [float] value). *)
Class Config := {
  Filter : Type;
  filter_feed : F32.float -> Filter -> Filter;
  filter_reset : Filter -> Filter;
  stable : Filter -> Filter -> bool;
  filtered : Filter -> Filter -> Point.t;
  r_touch_threshold : F32.float;
  width_pixels : F32.float;
  height_pixels : F32.float;
  calib_x_low : F32.float;
  calib_x_range : F32.float;
  calib_y_high : F32.float;
  calib_y_range : F32.float
}.

(** [default] stands for any value of the enumeration's underlying type
    other than the two enumerators. *)
Inductive State := NoTouch | TouchDetected | Unrecognized.

(** The three private notifications of the manager. *)
Inductive Callback := touch_started | touch_moved | touch_ended.

Section Manager.
Context `{cfg : Config}.

Record Manager := mkManager {
  state : State;
  filter_x : Filter;
  filter_y : Filter
}.

Definition point_stable (m : Manager) : bool :=
  stable (filter_x m) (filter_y m).

Definition filtered_point (m : Manager) : Point.t :=
  filtered (filter_x m) (filter_y m).

(** [feed] returns the manager after the sample and the notifications
    it made, in order. *)
Definition feed (frame : Frame.t) (m : Manager) : Manager * list Callback :=
  let touch_raw := Frame.touch frame in
  let touch_stable := Frame.touch frame in
  let '(touch_pressure, fx, fy) :=
    if touch_raw then
      let metrics := calculate_metrics frame in
      let touch_pressure := (Metrics.r metrics <? r_touch_threshold)%f32 in
      if touch_pressure then
        let x := (width_pixels * (Metrics.x metrics - calib_x_low)
                  / calib_x_range)%f32 in
        let y := (height_pixels * (calib_y_high - Metrics.y metrics)
                  / calib_y_range)%f32 in
        (touch_pressure, filter_feed x (filter_x m), filter_feed y (filter_y m))
      else
        (touch_pressure, filter_x m, filter_y m)
    else
      (false, filter_reset (filter_x m), filter_reset (filter_y m)) in
  let m := mkManager (state m) fx fy in
  match state m with
  | NoTouch =>
      if touch_stable && touch_pressure then
        if point_stable m then
          (mkManager TouchDetected fx fy, [touch_started])
        else (m, [])
      else (m, [])
  | TouchDetected =>
      if touch_stable && touch_pressure then
        (m, [touch_moved])
      else
        (mkManager NoTouch fx fy, [touch_ended])
  | Unrecognized =>
      (mkManager NoTouch fx fy, [])
  end.

(** A sequence of [feed] calls, one per sampling tick. *)
Fixpoint feed_all (frames : list Frame.t) (m : Manager)
  : Manager * list Callback :=
  match frames with
  | [] => (m, [])
  | frame :: rest =>
      let '(m1, calls1) := feed frame m in
      let '(m2, calls2) := feed_all rest m1 in
      (m2, calls1 ++ calls2)
  end.

(** The contact test and the pressure test of one sample. *)
Definition contact (frame : Frame.t) : bool := Frame.touch frame.

Definition pressure_qualified (frame : Frame.t) : bool :=
  (Metrics.r (calculate_metrics frame) <? r_touch_threshold)%f32.

Definition qualified (frame : Frame.t) : bool :=
  contact frame && pressure_qualified frame.

(** Modelled from the spec: [touch_started], [touch_moved] and
    [touch_ended] (touch.hpp) hand a [Start], [Move] or [End] event
    carrying the filtered point to the [on_event] callback. *)
Definition fire_event (m : Manager) (c : Callback) : TouchEvent.t :=
  TouchEvent.mk (filtered_point m)
    match c with
    | touch_started => TouchEvent.Start
    | touch_moved => TouchEvent.Move
    | touch_ended => TouchEvent.End_
    end.

End Manager.

Arguments Manager {cfg}.
Arguments mkManager {cfg}.

End Touch.

(** ** Messages (message.hpp) *)

Module Message.
(** Modelled from the spec: a message is an identity and a payload; [id]
    is the underlying value [toUType(id)] of the [Message::ID]
    enumerator. *)
Record t := mk { id : nat; payload : list Z }.
End Message.

(** ** Widgets (ui_widget.hpp) *)

(** Modelled from the spec: the widget tree ([ui::Widget]).  A parent owns
    its children and holds a hidden flag and a screen rectangle; the
    children are listed in [children()] order, which is the order in which
    they are drawn, so a later sibling lies on top of an earlier one.  The
    tree is built once; routing an event does not change it. *)
#[warnings="-register-all"]
Inductive Widget := mkWidget {
  hidden : bool;
  screen_rect : Rect.t;
  children : list Widget
}.

(** A [Widget*]: child indices from the node up to the root. *)
Definition WidgetPtr := list nat.

Definition parent (w : WidgetPtr) : option WidgetPtr :=
  match w with
  | [] => None
  | _ :: up => Some up
  end.

(** [static_cast<ui::KeyEvent>(i)] keeps the switch index. *)
Definition KeyEvent := nat.

(** [ui::EncoderEvent] is a signed 32-bit step count. *)
Definition EncoderEvent := Z.

(** ** Collaborators *)

(** Constants of event_m0.hpp and message.hpp. *)
Class Platform := {
  EVT_MASK_RTC_TICK : Z;
  EVT_MASK_LCD_FRAME_SYNC : Z;
  EVT_MASK_SWITCHES : Z;
  EVT_MASK_ENCODER : Z;
  EVT_MASK_TOUCH : Z;
  EVT_MASK_APPLICATION : Z;
  EVT_MASK_LOCAL : Z;
  ID_MAX : nat;
  ID_DisplayFrameSync : nat
}.

(** The application behind the virtual calls: [App] is the state of the
    widgets, of the [ui::Context] and of whatever the message handlers
    capture.  Callbacks run to completion on [App]; the private members
    of the dispatcher are out of their reach.  A callback that goes through
    the dispatcher's public interface ([set_display_sleep], a scoped
    registration) is not described by this class: a property of a stretch
    of code that must be free of such calls states that no callback runs
    in it. *)
Class Application := {
  App : Type;
  Handler : Type;
  invoke : Handler -> Message.t -> App -> App;
  on_touch : WidgetPtr -> TouchEvent.t -> App -> bool * App;
  on_key : WidgetPtr -> KeyEvent -> App -> bool * App;
  on_encoder : WidgetPtr -> EncoderEvent -> App -> bool * App;
  focus_widget : App -> option WidgetPtr;
  focus_update : Widget -> KeyEvent -> App -> App
}.

(** What one wake of the run loop reads from the hardware and the queues. *)
Record Inputs := mkInputs {
  application_queue : list Message.t;
  app_local_queue : list Message.t;
  switches_state : list bool;
  encoder_position : Z;
  touch_frame : Touch.Frame.t
}.

(** The result of an operation that may not return. *)
Inductive Outcome (A : Type) :=
| Returns (a : A)
| Panics (msg : string)
| OutOfBounds.

Arguments Returns {A} a.
Arguments Panics {A} msg.
Arguments OutOfBounds {A}.

(** ** event_m0.cpp *)

Module Event.
Section Event.
Context `{tcfg : Touch.Config} `{plat : Platform} `{appl : Application}.

(** Calls made to collaborators, with the value a widget returned. *)
Inductive Call :=
  | c_fn (h : Handler) (message : Message.t)
  | c_on_touch (w : WidgetPtr) (event : TouchEvent.t) (consumed : bool)
  | c_on_key (w : WidgetPtr) (event : KeyEvent) (consumed : bool)
  | c_on_encoder (w : WidgetPtr) (event : EncoderEvent) (consumed : bool)
  | c_focus_manager_update (event : KeyEvent)
  | c_lcd_backlight (on : bool)
  | c_display_sleep
  | c_display_wake
  | c_paint_widget_tree
  | c_poll_inserted
  | c_second_tick
  | c_on_tick_second
  | c_get_switches_state
  | c_get_encoder_position
  | c_get_touch_frame.

(** *** MessageHandlerMap *)

(** [map_]: a slot per message ID below [ID_MAX]; an absent key is an
    empty [std::function]. *)
Abbreviation MapType := (gmap nat Handler).

(** [chDbgPanic] is the kernel's halt: it does not return, so the
    assignment that follows it is reached with an empty slot only.  An ID
    at or beyond [ID_MAX] indexes [map_] out of bounds. *)
Definition register_handler (id : nat) (handler : Handler) (map_ : MapType)
  : Outcome MapType :=
  if ID_MAX <=? id then OutOfBounds
  else
    match map_ !! id with
    | Some _ => Panics "MsgDblReg"%string
    | None => Returns (<[id := handler]> map_)
    end.

Definition unregister_handler (id : nat) (map_ : MapType) : Outcome MapType :=
  if ID_MAX <=? id then OutOfBounds
  else Returns (delete id map_).

(** *** Dispatcher state *)

Record System := mkSystem {
  top_widget : Widget;
  captured_widget : option WidgetPtr;
  display_sleep : bool;
  encoder_last : Z;
  touch_manager : Touch.Manager;
  message_map : MapType;
  app : App
  }.

Definition with_captured_widget (v : option WidgetPtr) (s : System) : System :=
  mkSystem (top_widget s) v (display_sleep s) (encoder_last s)
           (touch_manager s) (message_map s) (app s).

Definition with_display_sleep (v : bool) (s : System) : System :=
  mkSystem (top_widget s) (captured_widget s) v (encoder_last s)
           (touch_manager s) (message_map s) (app s).

Definition with_encoder_last (v : Z) (s : System) : System :=
  mkSystem (top_widget s) (captured_widget s) (display_sleep s) v
           (touch_manager s) (message_map s) (app s).

Definition with_touch_manager (v : Touch.Manager) (s : System) : System :=
  mkSystem (top_widget s) (captured_widget s) (display_sleep s)
           (encoder_last s) v (message_map s) (app s).

Definition with_message_map (v : MapType) (s : System) : System :=
  mkSystem (top_widget s) (captured_widget s) (display_sleep s)
           (encoder_last s) (touch_manager s) v (app s).

Definition with_app (v : App) (s : System) : System :=
  mkSystem (top_widget s) (captured_widget s) (display_sleep s)
           (encoder_last s) (touch_manager s) (message_map s) v.

(** *** State and trace monad *)

Definition M (A : Type) : Type := System -> A * System * list Call.

Definition ret {A} (a : A) : M A := fun s => (a, s, []).

Definition bind {A B} (c : M A) (k : A -> M B) : M B :=
  fun s =>
    let '(a, s1, t1) := c s in
    let '(b, s2, t2) := k a s1 in
    (b, s2, t1 ++ t2).

Definition gets {A} (f : System -> A) : M A := fun s => (f s, s, []).
Definition modify (f : System -> System) : M unit := fun s => (tt, f s, []).
Definition call (c : Call) : M unit := fun s => (tt, s, [c]).

Definition result {A} (r : A * System * list Call) : A := r.1.1.
Definition state_after {A} (r : A * System * list Call) : System := r.1.2.
Definition calls {A} (r : A * System * list Call) : list Call := r.2.

Notation "x <- c ;; k" := (bind c (fun x => k))
  (at level 20, c at level 99, k at level 200, only parsing).
Notation "c ;; k" := (bind c (fun _ => k))
  (at level 100, k at level 200, right associativity, only parsing).

Definition when (b : bool) (c : M unit) : M unit :=
  if b then c else ret tt.

(** *** Virtual calls *)

Definition handler_call (h : Handler) (message : Message.t) : M unit :=
  fun s => (tt, with_app (invoke h message (app s)) s, [c_fn h message]).

Definition widget_on_touch (w : WidgetPtr) (event : TouchEvent.t) : M bool :=
  fun s =>
    let '(consumed, a) := on_touch w event (app s) in
    (consumed, with_app a s, [c_on_touch w event consumed]).

Definition widget_on_key (w : WidgetPtr) (event : KeyEvent) : M bool :=
  fun s =>
    let '(consumed, a) := on_key w event (app s) in
    (consumed, with_app a s, [c_on_key w event consumed]).

Definition widget_on_encoder (w : WidgetPtr) (event : EncoderEvent) : M bool :=
  fun s =>
    let '(consumed, a) := on_encoder w event (app s) in
    (consumed, with_app a s, [c_on_encoder w event consumed]).

Definition focus_manager_update (event : KeyEvent) : M unit :=
  fun s =>
    (tt, with_app (focus_update (top_widget s) event (app s)) s,
     [c_focus_manager_update event]).

(** *** MessageHandlerMap::send *)

Definition send (message : Message.t) : M unit :=
  if Message.id message <? ID_MAX then
    map_ <- gets message_map ;;
    match map_ !! Message.id message with
    | Some h => handler_call h message
    | None => ret tt
    end
  else ret tt.

(** Modelled from the spec: [MessageQueue::handle] (message_queue.hpp)
    drains the queued messages in FIFO order and invokes the callback once
    per message. *)
Fixpoint handle (queue : list Message.t) (callback : Message.t -> M unit)
  : M unit :=
  match queue with
  | [] => ret tt
  | message :: rest => callback message ;; handle rest callback
  end.

(** *** EventDispatcher *)

Definition set_display_sleep (sleep : bool) : M unit :=
  (if sleep then
     call (c_lcd_backlight false) ;; call c_display_sleep
   else
     call c_display_wake ;; call (c_lcd_backlight true)) ;;
  modify (with_display_sleep sleep).

Definition handle_application_queue (inputs : Inputs) : M unit :=
  handle (application_queue inputs) send.

Definition handle_local_queue (inputs : Inputs) : M unit :=
  handle (app_local_queue inputs) send.

Definition handle_rtc_tick : M unit :=
  call c_poll_inserted ;; call c_second_tick ;; call c_on_tick_second.

Fixpoint touch_widget (w : Widget) (p : WidgetPtr) (event : TouchEvent.t)
  {struct w} : M (option WidgetPtr) :=
  match w with
  | mkWidget w_hidden r w_children =>
      if negb w_hidden then
        touched <-
          (fix descend (cs : list Widget) (i : nat) : M (option WidgetPtr) :=
             match cs with
             | [] => ret None
             | child :: rest =>
                 touched_widget <- touch_widget child (i :: p) event ;;
                 match touched_widget with
                 | Some t => ret (Some t)
                 | None => descend rest (S i)
                 end
             end) w_children 0%nat ;;
        match touched with
        | Some t => ret (Some t)
        | None =>
            if Rect.contains r (TouchEvent.point event) then
              consumed <- widget_on_touch p event ;;
              if consumed then ret (Some p) else ret None
            else ret None
        end
      else ret None
  end.

(** The [for] loop of [touch_widget] over the children of the widget at
    [p], from the child of index [i] on. *)
Fixpoint touch_children (cs : list Widget) (i : nat) (p : WidgetPtr)
  (event : TouchEvent.t) : M (option WidgetPtr) :=
  match cs with
  | [] => ret None
  | child :: rest =>
      touched_widget <- touch_widget child (i :: p) event ;;
      match touched_widget with
      | Some t => ret (Some t)
      | None => touch_children rest (S i) p event
      end
  end.

Definition on_touch_event (event : TouchEvent.t) : M unit :=
  (if TouchEvent.is_start event then
     top <- gets top_widget ;;
     touched <- touch_widget top [] event ;;
     modify (with_captured_widget touched)
   else ret tt) ;;
  captured <- gets captured_widget ;;
  match captured with
  | Some w => widget_on_touch w event ;; ret tt
  | None => ret tt
  end.

(** A gesture: the touch events the manager emits one after the other. *)
Fixpoint on_touch_events (events : list TouchEvent.t) : M unit :=
  match events with
  | [] => ret tt
  | event :: rest => on_touch_event event ;; on_touch_events rest
  end.

Definition handle_lcd_frame_sync : M unit :=
  send (Message.mk ID_DisplayFrameSync []) ;;
  call c_paint_widget_tree.

(** The [while] loop of [event_bubble_key], entered with a non-null
    [target]; it returns the final value of [target]. *)
Fixpoint bubble_key (target : WidgetPtr) (event : KeyEvent)
  : M (option WidgetPtr) :=
  consumed <- widget_on_key target event ;;
  if consumed then ret (Some target)
  else
    match target with
    | [] => ret None
    | _ :: up => bubble_key up event
    end.

Definition event_bubble_key (event : KeyEvent) : M bool :=
  focus <- gets (fun s => focus_widget (app s)) ;;
  target <- match focus with
            | Some w => bubble_key w event
            | None => ret None
            end ;;
  ret (bool_decide (target <> None)).

Fixpoint bubble_encoder (target : WidgetPtr) (event : EncoderEvent)
  : M unit :=
  consumed <- widget_on_encoder target event ;;
  if consumed then ret tt
  else
    match target with
    | [] => ret tt
    | _ :: up => bubble_encoder up event
    end.

Definition event_bubble_encoder (event : EncoderEvent) : M unit :=
  focus <- gets (fun s => focus_widget (app s)) ;;
  match focus with
  | Some w => bubble_encoder w event
  | None => ret tt
  end.

(** The body of the [for] loop of [handle_switches] for a pressed
    switch. *)
Definition handle_key (event : KeyEvent) : M unit :=
  consumed <- event_bubble_key event ;;
  when (negb consumed) (focus_manager_update event).

Fixpoint handle_keys (bits : list bool) (i : nat) : M unit :=
  match bits with
  | [] => ret tt
  | bit :: rest => when bit (handle_key i) ;; handle_keys rest (S i)
  end.

Definition handle_switches (inputs : Inputs) : M unit :=
  call c_get_switches_state ;;
  let switches_state := switches_state inputs in
  asleep <- gets display_sleep ;;
  if asleep then
    when (existsb id switches_state) (set_display_sleep false)
  else
    handle_keys switches_state 0%nat.

(** [static_cast<int32_t>] of a 32-bit unsigned difference. *)
Definition to_int32 (z : Z) : Z :=
  let u := (z mod 2 ^ 32)%Z in
  if (u <? 2 ^ 31)%Z then u else (u - 2 ^ 32)%Z.

Definition handle_encoder (inputs : Inputs) : M unit :=
  call c_get_encoder_position ;;
  let encoder_now := encoder_position inputs in
  last <- gets encoder_last ;;
  let delta := to_int32 (encoder_now - last) in
  modify (with_encoder_last encoder_now) ;;
  event_bubble_encoder delta.

(** [touch_manager.feed], with [on_event] bound to [on_touch_event] as
    the constructor does. *)
Definition touch_manager_feed (frame : Touch.Frame.t) : M unit :=
  m <- gets touch_manager ;;
  let '(m', fired) := Touch.feed frame m in
  modify (with_touch_manager m') ;;
  on_touch_events (map (Touch.fire_event m') fired).

Definition handle_touch (inputs : Inputs) : M unit :=
  call c_get_touch_frame ;;
  touch_manager_feed (touch_frame inputs).

Definition pending (events mask : Z) : bool :=
  negb (Z.land events mask =? 0)%Z.

Definition dispatch (events : Z) (inputs : Inputs) : M unit :=
  when (pending events EVT_MASK_APPLICATION)
    (handle_application_queue inputs) ;;
  when (pending events EVT_MASK_LOCAL)
    (handle_local_queue inputs) ;;
  when (pending events EVT_MASK_RTC_TICK)
    handle_rtc_tick ;;
  when (pending events EVT_MASK_SWITCHES)
    (handle_switches inputs) ;;
  asleep <- gets display_sleep ;;
  when (negb asleep)
    (when (pending events EVT_MASK_LCD_FRAME_SYNC)
       handle_lcd_frame_sync ;;
     when (pending events EVT_MASK_ENCODER)
       (handle_encoder inputs) ;;
     when (pending events EVT_MASK_TOUCH)
       (handle_touch inputs)).

(** *** Vocabulary of the specification *)

(** The parent chain of a widget, from the widget up to the root. *)
Fixpoint ancestors (w : WidgetPtr) : list WidgetPtr :=
  w :: match w with
       | [] => []
       | _ :: up => ancestors up
       end.

Definition chain (target : option WidgetPtr) : list WidgetPtr :=
  match target with
  | Some w => ancestors w
  | None => []
  end.

(** The three event sources behind the display-sleep gate, each with the
    collaborator call its handler makes first or last. *)
Inductive Source := LcdFrameSync | Encoder | TouchPanel.

Definition services (source : Source) (c : Call) : bool :=
  match source, c with
  | LcdFrameSync, c_paint_widget_tree => true
  | Encoder, c_get_encoder_position => true
  | TouchPanel, c_get_touch_frame => true
  | _, _ => false
  end.

Definition serviced (source : Source) (trace : list Call) : bool :=
  existsb (services source) trace.

Definition mask_of (source : Source) : Z :=
  match source with
  | LcdFrameSync => EVT_MASK_LCD_FRAME_SYNC
  | Encoder => EVT_MASK_ENCODER
  | TouchPanel => EVT_MASK_TOUCH
  end.

(** [c] is a call of [on_touch] on some widget. *)
Definition is_on_touch (c : Call) : bool :=
  match c with
  | c_on_touch _ _ _ => true
  | _ => false
  end.

(** [calls] deliver [events], one call of [w]'s [on_touch] per event. *)
Definition delivered (w : WidgetPtr) (events : list TouchEvent.t)
  (trace : list Call) : Prop :=
  Forall2 (fun event c => exists consumed, c = c_on_touch w event consumed)
          events trace.

(** [on_key] calls that declined, one per widget of [line], in order. *)
Definition declined (event : KeyEvent) (line : list WidgetPtr) : list Call :=
  map (fun w => c_on_key w event false) line.

(** A step from [s] to [s'] that leaves every member of the dispatcher as
    it was: only the application state may differ. *)
Definition app_only (s s' : System) : Prop := s' = with_app (app s') s.

(** What a hit test does: it calls [on_touch] with the event, changes the
    application state only, and when it resolves no widget every widget
    it asked declined. *)
Definition hit_test_ok (r : option WidgetPtr * System * list Call)
  (event : TouchEvent.t) (s : System) : Prop :=
  app_only s (state_after r)
  /\ Forall (fun c => exists w consumed, c = c_on_touch w event consumed) (calls r)
  /\ (result r = None ->
      Forall (fun c => exists w, c = c_on_touch w event false) (calls r)).

(** A call that services none of the three gated sources. *)
Definition unserving (c : Call) : Prop :=
  forall source, services source c = false.

(** Whether the display-sleep gate of a cycle is open: the display is awake
    on entry, or a pressed switch wakes it in this cycle. *)
Definition gate_open (events : Z) (inputs : Inputs) (s : System) : bool :=
  negb (display_sleep s)
  || (pending events EVT_MASK_SWITCHES && existsb id (switches_state inputs)).

(** The members that decide where touch events go. *)
Definition same_touch_members (s s' : System) : Prop :=
  top_widget s' = top_widget s
  /\ captured_widget s' = captured_widget s
  /\ touch_manager s' = touch_manager s.

(** A run that services no gated source and leaves the dispatcher's
    members as they were. *)
Definition quiet {A} (s : System) (r : A * System * list Call) : Prop :=
  app_only s (state_after r) /\ Forall unserving (calls r).

End Event.

Arguments System {tcfg appl}.
Arguments Call {appl}.
Arguments M {tcfg appl} A.

End Event.

(** ** The closed form of the specification *)

Module TouchSpec.
Import Touch.

(** A reading normalized by a range that starts at [low]. *)
Definition normalized (reading low range : Z) : F32.float :=
  (F32.of_int (reading - low) / F32.of_int range)%f32.

Definition midpoint (a b : Z) : Z := ((a + b) ÷ 2)%Z.

Definition x_norm (frame : Frame.t) : F32.float :=
  let x_min := Samples.xn (Frame.x frame) in
  let x_range := (Samples.xp (Frame.x frame) - x_min)%Z in
  normalized
    (midpoint (Samples.yp (Frame.x frame)) (Samples.yn (Frame.x frame)))
    x_min x_range.

Definition pressure_range (frame : Frame.t) : Z :=
  (Samples.yp (Frame.pressure frame) - Samples.xn (Frame.pressure frame))%Z.

Definition z1_norm (frame : Frame.t) : F32.float :=
  normalized (Samples.xp (Frame.pressure frame))
    (Samples.xn (Frame.pressure frame)) (pressure_range frame).

Definition z2_norm (frame : Frame.t) : F32.float :=
  normalized (Samples.yn (Frame.pressure frame))
    (Samples.xn (Frame.pressure frame)) (pressure_range frame).

(** [r = R_x_plate * x_norm * (z2_norm / z1_norm - 1)] *)
Definition resistance (R_x_plate x z1 z2 : F32.float) : F32.float :=
  (R_x_plate * x * (z2 / z1 - F32.of_int 1))%f32.
End TouchSpec.

(** ** Fixtures *)

Module Fixture.
Import Touch.

(** A firm, centred contact: [x_norm = 1/2], [z1_norm = 1/4],
    [z2_norm = 1/2]. *)
Definition firm : Frame.t :=
  Frame.mk (Samples.mk 250 0 1000 500)
           (Samples.mk 1000 0 500 500)
           (Samples.mk 500 500 0 1000)
           true.

(** Contact with a pressure reading that is too weak. *)
Definition light : Frame.t :=
  Frame.mk (Samples.mk 10 0 1000 990)
           (Samples.mk 1000 0 500 500)
           (Samples.mk 500 500 0 1000)
           true.

(** The integer part of a finite float. *)
Definition trunc (a : F32.float) : Z :=
  match a with
  | S754_finite s m e =>
      let v := match e with
               | Zneg k => (Zpos m / 2 ^ Zpos k)%Z
               | _ => (Zpos m * 2 ^ e)%Z
               end in
      if s then (- v)%Z else v
  | _ => 0%Z
  end.

(** A test double for the coordinate filter: the fed values, newest
    first; the point counts as stable from the third value on. *)
#[export] Instance touch_config : Config := {|
  Filter := list F32.float;
  filter_feed := fun v history => v :: history;
  filter_reset := fun _ => [];
  stable := fun fx fy => (3 <=? length fx) && (3 <=? length fy);
  filtered := fun fx fy => Point.mk (trunc (hd (F32.of_int 0) fx))
                                    (trunc (hd (F32.of_int 0) fy));
  r_touch_threshold := F32.of_int 640;
  width_pixels := F32.of_int 240;
  height_pixels := F32.of_int 320;
  calib_x_low := (F32.of_int 7 / F32.of_int 100)%f32;
  calib_x_range := (F32.of_int 86 / F32.of_int 100)%f32;
  calib_y_high := (F32.of_int 96 / F32.of_int 100)%f32;
  calib_y_range := (F32.of_int 92 / F32.of_int 100)%f32
|}.

Definition idle : Manager := mkManager NoTouch [] [].

(** [EVENT_MASK(n)] is bit [n]. *)
#[export] Instance platform : Platform := {|
  EVT_MASK_RTC_TICK := 1;
  EVT_MASK_LCD_FRAME_SYNC := 2;
  EVT_MASK_SWITCHES := 8;
  EVT_MASK_ENCODER := 16;
  EVT_MASK_TOUCH := 32;
  EVT_MASK_APPLICATION := 64;
  EVT_MASK_LOCAL := 128;
  ID_MAX := 8;
  ID_DisplayFrameSync := 1
|}.

(** An application whose widgets answer by fixed tables; its state counts
    the callbacks that ran. *)
Definition application (touch_consumers key_consumers : WidgetPtr -> bool)
  (focus : option WidgetPtr) : Application := {|
  App := nat;
  Handler := nat;
  invoke := fun _ _ n => S n;
  on_touch := fun w _ n => (touch_consumers w, S n);
  on_key := fun w _ n => (key_consumers w, S n);
  on_encoder := fun _ _ n => (false, S n);
  focus_widget := fun _ => focus;
  focus_update := fun _ _ n => S n
|}.

Definition screen : Rect.t := Rect.mk 0 0 240 320.
Definition button : Rect.t := Rect.mk 10 10 100 40.

(** Two sibling buttons on the same spot of the screen. *)
Definition overlapping : Widget :=
  mkWidget false screen [mkWidget false button []; mkWidget false button []].

(** A single full-screen widget. *)
Definition bare : Widget := mkWidget false screen [].

Definition press : TouchEvent.t :=
  TouchEvent.mk (Point.mk 20 20) TouchEvent.Start.
Definition drag : TouchEvent.t :=
  TouchEvent.mk (Point.mk 200 300) TouchEvent.Move.
Definition release : TouchEvent.t :=
  TouchEvent.mk (Point.mk 200 300) TouchEvent.End_.

(** Every widget consumes touches. *)
Definition eager : Application :=
  application (fun _ => true) (fun _ => false) None.

(** No widget consumes anything; the focus is on child 1 of child 0. *)
Definition shy : Application :=
  application (fun _ => false) (fun _ => false) (Some [1; 0]%nat).

(** Only the root consumes keys; the focus is on child 1 of child 0. *)
Definition keyed : Application :=
  application (fun _ => false) (fun w => bool_decide (w = []))
    (Some [1; 0]%nat).

Definition system (appl : Application) (start : @App appl) (top : Widget)
  (captured : option WidgetPtr) (asleep : bool)
  : @Event.System touch_config appl :=
  Event.mkSystem top captured asleep 0 idle ∅ start.

(** A wake with one pressed switch and a firm contact on the panel. *)
Definition wake : Inputs := mkInputs [] [] [false; true] 0 firm.

(** A wake with no switch pressed. *)
Definition unpressed : Inputs := mkInputs [] [] [false; false] 0 firm.

(** Contact, but the two reference readings of the pressure range
    coincide. *)
Definition flat : Frame.t :=
  Frame.mk (Samples.mk 300 500 500 700)
           (Samples.mk 1000 0 500 500)
           (Samples.mk 500 500 0 1000)
           true.

(** A wake with three queued messages, two of them for IDs 3 and 4, one
    out of range. *)
Definition mail : Inputs :=
  mkInputs [Message.mk 3 [1%Z]; Message.mk 9 []] [Message.mk 4 []]
           [false; false] 0 firm.

(** A wake in which the encoder reads 2 and the contact is light. *)
Definition slipping : Inputs := mkInputs [] [] [false; false] 2 light.

(** A manager in the middle of a touch. *)
Definition touched : Manager := mkManager TouchDetected [] [].

End Fixture.

(** ** Scoped registration, and more vocabulary *)

Module Routing.
Section Routing.
Context `{tcfg : Touch.Config} `{plat : Platform} `{appl : Application}.
Import Event.

(** [MessageHandlerRegistration]: the constructor registers the callback
    in the global map and remembers the ID; the destructor unregisters
    that ID. *)
Record MessageHandlerRegistration := mkRegistration { message_id : nat }.

Definition construct (message_id : nat) (callback : Handler)
  (map_ : gmap nat Handler)
  : Outcome (MessageHandlerRegistration * gmap nat Handler) :=
  match register_handler message_id callback map_ with
  | Returns map' => Returns (mkRegistration message_id, map')
  | Panics msg => Panics msg
  | OutOfBounds => OutOfBounds
  end.

Definition destroy (registration : MessageHandlerRegistration)
  (map_ : gmap nat Handler) : Outcome (gmap nat Handler) :=
  unregister_handler (message_id registration) map_.

(** The handler call that [send] makes for [message] under [map_]. *)
Definition handled_by (map_ : gmap nat Handler) (message : Message.t)
  : list Call :=
  if Message.id message <? ID_MAX then
    match map_ !! Message.id message with
    | Some h => [c_fn h message]
    | None => []
    end
  else [].

(** The widget reached from [w] by the child indices of [route], outermost
    first, provided every widget passed on the way is visible. *)
Fixpoint subwidget (w : Widget) (route : list nat) : option Widget :=
  match route with
  | [] => Some w
  | i :: rest =>
      if hidden w then None
      else
        match nth_error (children w) i with
        | Some child => subwidget child rest
        | None => None
        end
  end.

(** The key a call routes, if it routes one. *)
Definition key_of (c : Call) : option KeyEvent :=
  match c with
  | c_on_key _ event _ => Some event
  | c_focus_manager_update event => Some event
  | _ => None
  end.

(** [on_encoder] calls that declined, one per widget of [line]. *)
Definition declined_encoder (event : EncoderEvent) (line : list WidgetPtr)
  : list Call :=
  map (fun w => c_on_encoder w event false) line.

(** An [on_touch] call with [event] that declined. *)
Definition declined_touch (event : TouchEvent.t) (c : Call) : Prop :=
  exists w, c = c_on_touch w event false.

(** No message handler runs while the queues of this cycle are drained:
    every message of a queue whose bit is pending has an ID out of range or
    an empty slot.  (A handler is application code: it can call the public
    [set_display_sleep] or open and close a registration.) *)
Definition no_handler_runs (events : Z) (inputs : Inputs) (s : System) : Prop :=
  (pending events EVT_MASK_APPLICATION = true ->
   Forall (fun message => handled_by (message_map s) message = [])
          (application_queue inputs))
  /\ (pending events EVT_MASK_LOCAL = true ->
      Forall (fun message => handled_by (message_map s) message = [])
             (app_local_queue inputs)).

(** No key is routed by the switch handling of this cycle: the display is
    asleep on entry, or the switch bit is not pending, or no switch is
    pressed. *)
Definition no_key_routed (events : Z) (inputs : Inputs) (s : System) : Prop :=
  display_sleep s = true
  \/ pending events EVT_MASK_SWITCHES = false
  \/ existsb id (switches_state inputs) = false.

End Routing.
End Routing.

(** Whether a stream of notifications is a well-formed stream of gestures:
    [touch_started] only outside a touch, [touch_moved] and [touch_ended]
    only inside one.  The result tells whether a touch is still open. *)
Module Gesture.

Fixpoint bracketed (touching : bool) (calls : list Touch.Callback)
  : option bool :=
  match calls with
  | [] => Some touching
  | Touch.touch_started :: rest =>
      if touching then None else bracketed true rest
  | Touch.touch_moved :: rest =>
      if touching then bracketed true rest else None
  | Touch.touch_ended :: rest =>
      if touching then bracketed false rest else None
  end.

Definition touching `{cfg : Touch.Config} (m : Touch.Manager) : bool :=
  match Touch.state m with
  | Touch.TouchDetected => true
  | _ => false
  end.

End Gesture.

(** * Properties *)

(** ** Sample conditioning *)

(** C7. For every sample frame, the resistance that [calculate_metrics]
    returns is the closed form [R_x_plate * x_norm * (z2_norm / z1_norm - 1)]
    with [R_x_plate = 330], [x_norm] the x midpoint less [x_min] over the x
    range, and [z1_norm], [z2_norm] the two pressure readings over the
    pressure range, all in binary32 arithmetic. *)
Theorem calculate_metrics_resistance (frame : Touch.Frame.t) :
  Touch.Metrics.r (Touch.calculate_metrics frame)
  = TouchSpec.resistance (F32.of_int 330) (TouchSpec.x_norm frame)
      (TouchSpec.z1_norm frame) (TouchSpec.z2_norm frame)
  /\ Touch.Metrics.x (Touch.calculate_metrics frame) = TouchSpec.x_norm frame.
Proof.
  destruct frame as [[pxp pxn pyp pyn] [xxp xxn xyp xyn] fy t].
  split; reflexivity.
Qed.

(** The midpoint is an integer: the halving truncates, as [int] division
    does. *)
Example midpoint_truncates : TouchSpec.midpoint 3 4 = 3%Z.
Proof. reflexivity. Qed.

(** On the firm fixture the closed form is exact: [330 * 1/2 * (2 - 1)]. *)
Example calculate_metrics_firm :
  Touch.Metrics.r (Touch.calculate_metrics Fixture.firm) = F32.of_int 165.
Proof. vm_compute. reflexivity. Qed.

(** A degenerate pressure range does not fail: the metric is a NaN, which
    no threshold qualifies. *)
Example calculate_metrics_degenerate :
  let frame := Touch.Frame.mk (Touch.Samples.mk 0 0 0 0)
                 (Touch.Samples.mk 1000 0 500 500)
                 (Touch.Samples.mk 500 500 0 1000) true in
  Touch.Metrics.r (Touch.calculate_metrics frame) = S754_nan
  /\ forall threshold, (S754_nan <? threshold)%f32 = false.
Proof. split; [vm_compute; reflexivity | intros []; reflexivity]. Qed.

(** ** The touch state machine *)

Section TouchStateMachine.
Context `{cfg : Touch.Config}.
Import Touch.

Implicit Types (m : Manager) (frame : Frame.t).

Lemma feed_NoTouch_qualified m frame :
  state m = NoTouch -> qualified frame = true ->
  (state (feed frame m).1 = TouchDetected
   /\ (feed frame m).2 = [touch_started]
   /\ point_stable (feed frame m).1 = true)
  \/ (state (feed frame m).1 = NoTouch
      /\ (feed frame m).2 = []
      /\ point_stable (feed frame m).1 = false).
Proof.
  intros Hs Hq. unfold qualified, contact, pressure_qualified in Hq.
  apply andb_true_iff in Hq as [Hc Hp].
  unfold feed. rewrite Hc, Hp. cbn [state]. rewrite Hs. cbn [andb].
  match goal with |- context [point_stable ?m'] =>
    destruct (point_stable m') eqn:Hst end;
    unfold point_stable in *; cbn in *; [left | right]; auto.
Qed.

Lemma feed_TouchDetected_qualified m frame :
  state m = TouchDetected -> qualified frame = true ->
  state (feed frame m).1 = TouchDetected
  /\ (feed frame m).2 = [touch_moved].
Proof.
  intros Hs Hq. unfold qualified, contact, pressure_qualified in Hq.
  apply andb_true_iff in Hq as [Hc Hp].
  unfold feed. rewrite Hc, Hp. cbn [state]. rewrite Hs. cbn. auto.
Qed.

Lemma feed_TouchDetected_unqualified m frame :
  state m = TouchDetected -> qualified frame = false ->
  state (feed frame m).1 = NoTouch
  /\ (feed frame m).2 = [touch_ended].
Proof.
  intros Hs Hq. unfold qualified, contact, pressure_qualified in Hq.
  unfold feed. destruct (Frame.touch frame); cbn [andb] in Hq.
  - rewrite Hq. cbn [state]. rewrite Hs. cbn. auto.
  - cbn [state]. rewrite Hs. cbn. auto.
Qed.

Lemma feed_all_cons frame frames m :
  feed_all (frame :: frames) m
  = ((feed_all frames (feed frame m).1).1,
     (feed frame m).2 ++ (feed_all frames (feed frame m).1).2).
Proof.
  cbn [feed_all]. destruct (feed frame m) as [m1 c1]. cbn.
  destruct (feed_all frames m1) as [m2 c2]. reflexivity.
Qed.

Lemma feed_all_app frames1 frames2 m :
  feed_all (frames1 ++ frames2) m
  = ((feed_all frames2 (feed_all frames1 m).1).1,
     (feed_all frames1 m).2 ++ (feed_all frames2 (feed_all frames1 m).1).2).
Proof.
  revert m. induction frames1 as [|frame frames1 IH]; intros m.
  - cbn. destruct (feed_all frames2 m); reflexivity.
  - rewrite <- app_comm_cons, !feed_all_cons, IH. cbn [fst snd].
    rewrite app_assoc. reflexivity.
Qed.

(** While the contact stays qualified, a detected touch only moves. *)
Lemma feed_all_TouchDetected frames m :
  state m = TouchDetected ->
  Forall (fun frame => qualified frame = true) frames ->
  state (feed_all frames m).1 = TouchDetected
  /\ (feed_all frames m).2 = repeat touch_moved (length frames).
Proof.
  intros Hs Hall. revert m Hs.
  induction Hall as [|frame frames Hq _ IH]; intros m Hs.
  - cbn. auto.
  - rewrite feed_all_cons. cbn [fst snd length repeat].
    destruct (feed_TouchDetected_qualified m frame Hs Hq) as [Hs1 Hc1].
    destruct (IH _ Hs1) as [Hs2 Hc2].
    rewrite Hc1, Hc2. auto.
Qed.

(** From [NoTouch], qualified samples start at most one touch. *)
Lemma feed_all_NoTouch frames m :
  state m = NoTouch ->
  Forall (fun frame => qualified frame = true) frames ->
  (state (feed_all frames m).1 = NoTouch /\ (feed_all frames m).2 = [])
  \/ (state (feed_all frames m).1 = TouchDetected
      /\ exists k, (feed_all frames m).2 = touch_started :: repeat touch_moved k).
Proof.
  intros Hs Hall. revert m Hs.
  induction Hall as [|frame frames Hq Hall IH]; intros m Hs.
  - cbn. auto.
  - rewrite feed_all_cons. cbn [fst snd].
    destruct (feed_NoTouch_qualified m frame Hs Hq)
      as [(Hs1 & Hc1 & _) | (Hs1 & Hc1 & _)]; rewrite Hc1.
    + right. destruct (feed_all_TouchDetected frames _ Hs1 Hall) as [Hs2 Hc2].
      rewrite Hc2. eauto.
    + destruct (IH _ Hs1) as [[Hs2 Hc2] | [Hs2 [k Hc2]]]; rewrite Hc2; eauto.
Qed.

(** C4. Starting in [NoTouch], a run of qualified samples after which the
    position is stable leaves the machine in [TouchDetected] having called
    [touch_started] exactly once (followed by moves only); every further
    qualified sample calls [touch_moved] and nothing else; and the first
    sample that fails the contact or the pressure test brings the machine
    back to [NoTouch] with exactly one call of [touch_ended]. *)
Theorem feed_gesture m (run further : list Frame.t) (lift : Frame.t) :
  state m = NoTouch ->
  run <> [] ->
  Forall (fun frame => qualified frame = true) run ->
  point_stable (feed_all run m).1 = true ->
  Forall (fun frame => qualified frame = true) further ->
  qualified lift = false ->
  let started := feed_all run m in
  let moved := feed_all further started.1 in
  let ended := feed lift moved.1 in
  (state started.1 = TouchDetected
   /\ exists k, started.2 = touch_started :: repeat touch_moved k)
  /\ (state moved.1 = TouchDetected
      /\ moved.2 = repeat touch_moved (length further))
  /\ (state ended.1 = NoTouch /\ ended.2 = [touch_ended]).
Proof.
  intros Hs Hne Hrun Hstable Hfurther Hlift started moved ended.
  assert (Hstarted : state started.1 = TouchDetected
            /\ exists k, started.2 = touch_started :: repeat touch_moved k).
  { subst started.
    destruct (exists_last Hne) as (pre & frame & ->).
    apply Forall_app in Hrun as [Hpre Hlast].
    apply Forall_inv in Hlast.
    rewrite feed_all_app in Hstable |- *. cbn [fst snd] in Hstable |- *.
    rewrite feed_all_cons in Hstable |- *. cbn [feed_all fst snd] in Hstable |- *.
    rewrite app_nil_r.
    destruct (feed_all_NoTouch pre m Hs Hpre) as [[Hs1 Hc1] | [Hs1 [k Hc1]]];
      rewrite Hc1.
    - destruct (feed_NoTouch_qualified _ frame Hs1 Hlast)
        as [(Hs2 & Hc2 & _) | (_ & _ & Hunstable)].
      + rewrite Hc2. split; [exact Hs2 | exists 0%nat; reflexivity].
      + congruence.
    - destruct (feed_TouchDetected_qualified _ frame Hs1 Hlast) as [Hs2 Hc2].
      rewrite Hc2. split; [exact Hs2 |]. exists (S k).
      cbn [app]. f_equal. change [touch_moved] with (repeat touch_moved 1).
      rewrite <- repeat_app. f_equal. lia. }
  destruct Hstarted as [Hs1 Hc1].
  destruct (feed_all_TouchDetected further _ Hs1 Hfurther) as [Hs2 Hc2].
  fold moved in Hs2, Hc2.
  destruct (feed_TouchDetected_unqualified _ lift Hs2 Hlift) as [Hs3 Hc3].
  fold ended in Hs3, Hc3.
  repeat split; assumption.
Qed.

End TouchStateMachine.

(** ** The message handler map *)

Section MessageHandlerMap.
Context `{tcfg : Touch.Config} `{plat : Platform} `{appl : Application}.
Import Event.

(** C5. For a message ID of the table, [register_handler] panics when the
    slot already holds a handler, and otherwise returns with the handler
    stored in that slot and every other slot as it was. *)
Theorem register_handler_once (id : nat) (handler : Handler) (map_ : gmap nat Handler) :
  id < ID_MAX ->
  (is_Some (map_ !! id) ->
   register_handler id handler map_ = Panics "MsgDblReg"%string)
  /\ (map_ !! id = None ->
      exists map',
        register_handler id handler map_ = Returns map'
        /\ map' !! id = Some handler
        /\ forall other, other <> id -> map' !! other = map_ !! other).
Proof.
  intros Hid. unfold register_handler.
  destruct (Nat.leb_spec ID_MAX id) as [Hle | _]; [lia |].
  split.
  - intros [h Hh]. rewrite Hh. reflexivity.
  - intros Hnone. rewrite Hnone. eexists. split; [reflexivity |]. split.
    + apply lookup_insert_eq.
    + intros other Hne. apply lookup_insert_ne. congruence.
Qed.

(** A second registration of the same ID panics, whatever the handlers. *)
Corollary register_handler_twice (id : nat) (first second : Handler)
  (map_ map' : gmap nat Handler) :
  register_handler id first map_ = Returns map' ->
  register_handler id second map' = Panics "MsgDblReg"%string.
Proof.
  unfold register_handler.
  destruct (ID_MAX <=? id); [discriminate |].
  destruct (map_ !! id); [discriminate |].
  intros [= <-]. rewrite lookup_insert_eq. reflexivity.
Qed.

Lemma send_registered (message : Message.t) (h : Handler) (s : System) :
  Message.id message < ID_MAX ->
  message_map s !! Message.id message = Some h ->
  send message s
  = (tt, with_app (invoke h message (app s)) s, [c_fn h message]).
Proof.
  intros Hid Hh. unfold send.
  destruct (Nat.ltb_spec (Message.id message) ID_MAX) as [_ | Hge]; [| lia].
  unfold bind, gets. rewrite Hh. reflexivity.
Qed.

Lemma send_dropped (message : Message.t) (s : System) :
  ID_MAX <= Message.id message \/ message_map s !! Message.id message = None ->
  send message s = (tt, s, []).
Proof.
  intros Hdrop. unfold send.
  destruct (Nat.ltb_spec (Message.id message) ID_MAX) as [Hlt | Hge];
    [| reflexivity].
  destruct Hdrop as [Hge | Hnone]; [lia |].
  unfold bind, gets. rewrite Hnone. reflexivity.
Qed.

(** Whatever it does, [send] changes the application state only. *)
Lemma send_frame (message : Message.t) (s : System) :
  state_after (send message s) = with_app (app (state_after (send message s))) s.
Proof.
  unfold send. destruct (Message.id message <? ID_MAX);
    [| destruct s; reflexivity].
  unfold bind, gets. destruct (message_map s !! Message.id message);
    destruct s; reflexivity.
Qed.

(** C6. [send] calls the registered handler, once, exactly when the
    message ID is below [ID_MAX] and its slot holds a handler; in every
    other case, in particular once [unregister_handler] has cleared the
    slot, it returns without any call and without any change; and in all
    cases it leaves the handler map as it was. *)
Theorem send_dispatches (message : Message.t) (s : System) :
  (forall h,
      Message.id message < ID_MAX ->
      message_map s !! Message.id message = Some h ->
      send message s
      = (tt, with_app (invoke h message (app s)) s, [c_fn h message]))
  /\ (ID_MAX <= Message.id message
      \/ message_map s !! Message.id message = None ->
      send message s = (tt, s, []))
  /\ (forall map',
         unregister_handler (Message.id message) (message_map s) = Returns map' ->
         send message (with_message_map map' s)
         = (tt, with_message_map map' s, []))
  /\ message_map (state_after (send message s)) = message_map s.
Proof.
  split; [| split; [| split]].
  - intros h. apply send_registered.
  - apply send_dropped.
  - intros map'. unfold unregister_handler.
    destruct (ID_MAX <=? Message.id message); [discriminate |].
    intros [= <-]. apply send_dropped. right.
    cbn. apply lookup_delete_eq.
  - rewrite send_frame. reflexivity.
Qed.

End MessageHandlerMap.

(** ** Hit testing and touch capture *)

Section HitTest.
Context `{tcfg : Touch.Config} `{plat : Platform} `{appl : Application}.
Import Event.

(** The trace, the state and the result of a sequence. *)
Lemma calls_bind {A B} (c : M A) (k : A -> M B) s :
  calls (bind c k s)
  = calls (c s) ++ calls (k (result (c s)) (state_after (c s))).
Proof.
  unfold bind. destruct (c s) as [[a s1] t1]. cbn.
  destruct (k a s1) as [[b s2] t2]. reflexivity.
Qed.

Lemma state_after_bind {A B} (c : M A) (k : A -> M B) s :
  state_after (bind c k s)
  = state_after (k (result (c s)) (state_after (c s))).
Proof.
  unfold bind. destruct (c s) as [[a s1] t1]. cbn.
  destruct (k a s1) as [[b s2] t2]. reflexivity.
Qed.

Lemma result_bind {A B} (c : M A) (k : A -> M B) s :
  result (bind c k s) = result (k (result (c s)) (state_after (c s))).
Proof.
  unfold bind. destruct (c s) as [[a s1] t1]. cbn.
  destruct (k a s1) as [[b s2] t2]. reflexivity.
Qed.

Lemma Widget_children_ind (P : Widget -> Prop) :
  (forall h r cs, Forall P cs -> P (mkWidget h r cs)) ->
  forall w, P w.
Proof.
  intros step. fix IH 1. intros [h r cs]. apply step.
  induction cs as [|c cs IHcs]; constructor; [apply IH | exact IHcs].
Qed.

(** [touch_widget] on a node, with its loop written as [touch_children]. *)
Lemma touch_widget_node h r cs p event s :
  touch_widget (mkWidget h r cs) p event s
  = (if negb h then
       bind (touch_children cs 0 p event) (fun touched =>
         match touched with
         | Some t => ret (Some t)
         | None =>
             if Rect.contains r (TouchEvent.point event) then
               bind (widget_on_touch p event) (fun consumed =>
                 if consumed then ret (Some p) else ret None)
             else ret None
         end)
     else ret None) s.
Proof.
  cbn [touch_widget]. destruct (negb h); [| reflexivity].
  unfold bind at 1 3.
  match goal with |- context [?f cs 0%nat s] =>
    assert (Hloop : forall cs i s, f cs i s = touch_children cs i p event s) end.
  { clear. induction cs as [|child rest IH]; intros i s; [reflexivity |].
    cbn [touch_children]. unfold bind.
    destruct (touch_widget child (i :: p) event s) as [[[t|] s1] t1];
      [reflexivity |].
    rewrite IH. reflexivity. }
  rewrite Hloop. reflexivity.
Qed.

Lemma app_only_refl s : app_only s s.
Proof. destruct s; reflexivity. Qed.

Lemma app_only_trans s1 s2 s3 :
  app_only s1 s2 -> app_only s2 s3 -> app_only s1 s3.
Proof. unfold app_only. intros -> ->. reflexivity. Qed.

Lemma app_only_with_app a s : app_only s (with_app a s).
Proof. reflexivity. Qed.

Lemma widget_on_touch_app_only w event s :
  app_only s (state_after (widget_on_touch w event s)).
Proof.
  unfold widget_on_touch. destruct (on_touch w event (app s)). reflexivity.
Qed.

Lemma hit_test_ok_ret o event s :
  hit_test_ok (ret o s) event s.
Proof.
  repeat split; cbn; auto using app_only_refl.
Qed.

Lemma touch_widget_hit_test w : forall p event s,
  hit_test_ok (touch_widget w p event s) event s.
Proof.
  induction w as [h r cs IH] using Widget_children_ind.
  intros p event s. rewrite touch_widget_node.
  destruct (negb h); [| apply hit_test_ok_ret].
  assert (Hloop : forall i s, hit_test_ok (touch_children cs i p event s) event s).
  { clear -IH. induction IH as [|child rest Hchild _ IHrest]; intros i s.
    - apply hit_test_ok_ret.
    - cbn [touch_children]. unfold bind.
      specialize (Hchild (i :: p) event s).
      destruct (touch_widget child (i :: p) event s) as [[[t|] s1] t1].
      + cbn. rewrite app_nil_r. exact Hchild.
      + specialize (IHrest (S i) s1).
        destruct (touch_children rest (S i) p event s1) as [[o s2] t2].
        destruct Hchild as (Ha1 & Hc1 & Hn1), IHrest as (Ha2 & Hc2 & Hn2).
        cbn in *. repeat split.
        * eapply app_only_trans; eassumption.
        * apply Forall_app; auto.
        * intros Ho. apply Forall_app; auto. }
  unfold bind at 1. specialize (Hloop 0%nat s).
  destruct (touch_children cs 0 p event s) as [[[t|] s1] t1].
  - cbn. rewrite app_nil_r. exact Hloop.
  - destruct Hloop as (Ha1 & Hc1 & Hn1). cbn in Ha1, Hc1, Hn1.
    destruct (Rect.contains r (TouchEvent.point event)).
    + unfold bind, widget_on_touch.
      destruct (on_touch p event (app s1)) as [consumed a] eqn:Hon.
      destruct consumed; cbn; repeat split; cbn.
      * eapply app_only_trans; [eassumption | reflexivity].
      * apply Forall_app; split; [assumption |]. repeat constructor. eauto.
      * discriminate.
      * eapply app_only_trans; [eassumption | reflexivity].
      * apply Forall_app; split; [assumption |]. repeat constructor. eauto.
      * intros _. apply Forall_app; split; [auto |]. repeat constructor. eauto.
    + cbn. rewrite app_nil_r. repeat split; cbn; auto.
Qed.

(** In the loop over the children, the first child whose subtree responds
    ends the search: no later sibling is asked. *)
Lemma touch_children_first_hit child rest i p event s t :
  result (touch_widget child (i :: p) event s) = Some t ->
  touch_children (child :: rest) i p event s
  = (Some t, state_after (touch_widget child (i :: p) event s),
     calls (touch_widget child (i :: p) event s)).
Proof.
  intros Hhit. cbn [touch_children]. unfold bind.
  destruct (touch_widget child (i :: p) event s) as [[touched s1] t1].
  cbn in Hhit. subst touched. cbn. rewrite app_nil_r. reflexivity.
Qed.

(** Of two siblings that both contain the point and would both consume
    the event, the one that comes first in [children()], which the painter
    draws first, is the one returned. *)
Lemma touch_widget_earlier_sibling_wins
  (area lower_rect : Rect.t) (upper : Widget) (others : list Widget)
  p event s a :
  Rect.contains lower_rect (TouchEvent.point event) = true ->
  on_touch (0%nat :: p) event (app s) = (true, a) ->
  touch_widget
    (mkWidget false area (mkWidget false lower_rect [] :: upper :: others))
    p event s
  = (Some (0%nat :: p), with_app a s, [c_on_touch (0%nat :: p) event true]).
Proof.
  intros Hin Hon. rewrite touch_widget_node. cbn [negb]. unfold bind at 1.
  assert (Hlower : touch_widget (mkWidget false lower_rect []) (0%nat :: p) event s
                   = (Some (0%nat :: p), with_app a s,
                      [c_on_touch (0%nat :: p) event true])).
  { rewrite touch_widget_node. cbn [negb touch_children]. unfold bind, ret.
    rewrite Hin. unfold widget_on_touch. rewrite Hon. reflexivity. }
  rewrite (touch_children_first_hit _ _ _ _ _ _ (0%nat :: p));
    rewrite Hlower; reflexivity.
Qed.

End HitTest.

(** C1, on the code. Two sibling buttons cover the same spot and both
    consume a touch there; [touch_widget] asks the first of them in
    [children()] order, which is drawn first, and returns it: the sibling
    drawn last, which is the one on top, is never asked. *)
Theorem touch_widget_overlapping_siblings :
  let s := Fixture.system Fixture.eager 0%nat Fixture.overlapping None false in
  Forall (fun child =>
            hidden child = false
            /\ Rect.contains (screen_rect child)
                 (TouchEvent.point Fixture.press) = true)
         (children Fixture.overlapping)
  /\ (forall w a, (@on_touch Fixture.eager w Fixture.press a).1 = true)
  /\ Event.result (Event.touch_widget Fixture.overlapping [] Fixture.press s)
     = Some [0%nat]
  /\ Event.calls (Event.touch_widget Fixture.overlapping [] Fixture.press s)
     = [Event.c_on_touch [0%nat] Fixture.press true].
Proof.
  cbv zeta. split; [| split; [| split]].
  - repeat constructor.
  - intros w a. reflexivity.
  - vm_compute. reflexivity.
  - vm_compute. reflexivity.
Qed.

Section TouchCapture.
Context `{tcfg : Touch.Config} `{plat : Platform} `{appl : Application}.
Import Event.

Implicit Types (s : System) (event : TouchEvent.t).

Lemma is_start_true event :
  TouchEvent.type event = TouchEvent.Start -> TouchEvent.is_start event = true.
Proof. unfold TouchEvent.is_start. intros ->. reflexivity. Qed.

Lemma is_start_false event :
  TouchEvent.type event <> TouchEvent.Start -> TouchEvent.is_start event = false.
Proof. unfold TouchEvent.is_start. destruct (TouchEvent.type event); congruence. Qed.

Lemma widget_on_touch_call w event s :
  exists consumed, calls (widget_on_touch w event s) = [c_on_touch w event consumed].
Proof.
  unfold widget_on_touch. destruct (on_touch w event (app s)) as [consumed a].
  exists consumed. reflexivity.
Qed.

(** A [Start] event: hit test from the root, capture, then delivery. *)
Lemma on_touch_event_start event s :
  TouchEvent.type event = TouchEvent.Start ->
  let hit := touch_widget (top_widget s) [] event s in
  let s1 := with_captured_widget (result hit) (state_after hit) in
  on_touch_event event s
  = match result hit with
    | Some w =>
        (tt, state_after (widget_on_touch w event s1),
         calls hit ++ calls (widget_on_touch w event s1))
    | None => (tt, s1, calls hit)
    end.
Proof.
  intros Hstart hit s1. unfold on_touch_event.
  rewrite (is_start_true _ Hstart).
  unfold bind, gets, modify, ret. cbn [fst snd].
  subst s1 hit.
  destruct (touch_widget (top_widget s) [] event s) as [[touched s0] t0].
  cbn [result state_after calls fst snd with_captured_widget captured_widget].
  destruct touched as [w|]; cbn [app].
  - destruct (widget_on_touch w event _) as [[c s2] t2]. cbn.
    rewrite !app_nil_r. reflexivity.
  - cbn. rewrite !app_nil_r. reflexivity.
Qed.

(** A [Move] or [End] event: delivery to the captured widget, if any. *)
Lemma on_touch_event_captured event s :
  TouchEvent.type event <> TouchEvent.Start ->
  on_touch_event event s
  = match captured_widget s with
    | Some w =>
        (tt, state_after (widget_on_touch w event s),
         calls (widget_on_touch w event s))
    | None => (tt, s, [])
    end.
Proof.
  intros Hother. unfold on_touch_event.
  rewrite (is_start_false _ Hother).
  unfold bind, gets, ret. cbn [fst snd].
  destruct (captured_widget s) as [w|]; [| reflexivity].
  destruct (widget_on_touch w event s) as [[c s2] t2].
  cbn. rewrite app_nil_r. reflexivity.
Qed.

Lemma on_touch_event_keeps_capture event s :
  TouchEvent.type event <> TouchEvent.Start ->
  captured_widget (state_after (on_touch_event event s)) = captured_widget s.
Proof.
  intros Hother. rewrite (on_touch_event_captured _ _ Hother).
  destruct (captured_widget s) as [w|] eqn:Hc; [| exact Hc].
  cbn [state_after fst snd].
  pose proof (widget_on_touch_app_only w event s) as Ha.
  unfold app_only in Ha. rewrite Ha. exact Hc.
Qed.

(** A [Start] event captures what the hit test from the root resolves. *)
Lemma on_touch_event_captures event s :
  TouchEvent.type event = TouchEvent.Start ->
  captured_widget (state_after (on_touch_event event s))
  = result (touch_widget (top_widget s) [] event s).
Proof.
  intros Hstart. rewrite (on_touch_event_start _ _ Hstart).
  set (hit := touch_widget (top_widget s) [] event s).
  destruct (result hit) as [w|] eqn:Hhit; cbn [state_after fst snd].
  - pose proof (widget_on_touch_app_only w event
                  (with_captured_widget (Some w) (state_after hit))) as Ha.
    unfold app_only in Ha. rewrite Ha. reflexivity.
  - reflexivity.
Qed.

(** The rest of a gesture goes to whatever is captured, call by call. *)
Lemma on_touch_events_captured (rest : list TouchEvent.t) s :
  Forall (fun event => TouchEvent.type event <> TouchEvent.Start) rest ->
  captured_widget (state_after (on_touch_events rest s)) = captured_widget s
  /\ match captured_widget s with
     | Some w => delivered w rest (calls (on_touch_events rest s))
     | None => on_touch_events rest s = (tt, s, [])
     end.
Proof.
  intros Hrest. revert s.
  induction Hrest as [|event rest Hother _ IH]; intros s.
  - cbn. split; [reflexivity |].
    destruct (captured_widget s); [constructor | reflexivity].
  - cbn [on_touch_events]. unfold bind.
    pose proof (on_touch_event_keeps_capture event s Hother) as Hkeep.
    pose proof (on_touch_event_captured event s Hother) as Hstep.
    destruct (on_touch_event event s) as [[[] s1] t1].
    cbn [state_after fst snd] in Hkeep.
    destruct (IH s1) as [Hcap Hcalls].
    destruct (on_touch_events rest s1) as [[[] s2] t2].
    cbn [state_after calls fst snd] in *.
    split; [congruence |].
    rewrite Hkeep in Hcalls.
    destruct (captured_widget s) as [w|].
    + destruct (widget_on_touch_call w event s) as [consumed Hcall].
      injection Hstep as _ ->. rewrite Hcall.
      constructor; [eauto | exact Hcalls].
    + injection Hstep as -> ->. injection Hcalls as -> ->. reflexivity.
Qed.

(** C3. A [Start] event sets the captured widget to the result of the hit
    test from the root; after the calls of that hit test it is delivered
    to the captured widget; and each following [Move] or [End] event,
    whatever its point, makes exactly one call, [on_touch] of that same
    widget, and keeps it captured. *)
Theorem touch_capture_persists (start : TouchEvent.t) (rest : list TouchEvent.t) s :
  TouchEvent.type start = TouchEvent.Start ->
  Forall (fun event => TouchEvent.type event <> TouchEvent.Start) rest ->
  let hit := touch_widget (top_widget s) [] start s in
  let s1 := state_after (on_touch_event start s) in
  captured_widget s1 = result hit
  /\ captured_widget (state_after (on_touch_events rest s1)) = result hit
  /\ forall w, result hit = Some w ->
       (exists consumed,
           calls (on_touch_event start s)
           = calls hit ++ [c_on_touch w start consumed])
       /\ delivered w rest (calls (on_touch_events rest s1)).
Proof.
  intros Hstart Hrest hit s1.
  pose proof (on_touch_event_captures start s Hstart) as Hcap.
  fold hit s1 in Hcap.
  destruct (on_touch_events_captured rest s1 Hrest) as [Hkeep Hcalls].
  split; [exact Hcap |]. split; [congruence |].
  intros w Hw. rewrite Hcap, Hw in Hcalls. split; [| exact Hcalls].
  rewrite (on_touch_event_start _ _ Hstart). fold hit. rewrite Hw.
  destruct (widget_on_touch_call w start
              (with_captured_widget (Some w) (state_after hit)))
    as [consumed Hcall].
  exists consumed. rewrite Hcall. reflexivity.
Qed.

(** The widgets a hit test asks: each is reached from the root of the
    search through visible widgets only, is visible itself, and its screen
    rectangle contains the event point. *)
Lemma touch_widget_probes (w : Widget) :
  forall (p : WidgetPtr) event s,
    Forall (fun c =>
              exists q consumed w',
                c = c_on_touch (q ++ p) event consumed
                /\ Routing.subwidget w (rev q) = Some w'
                /\ hidden w' = false
                /\ Rect.contains (screen_rect w') (TouchEvent.point event)
                   = true)
           (calls (touch_widget w p event s)).
Proof.
  induction w as [h rect cs IH] using Widget_children_ind.
  intros p event s. rewrite touch_widget_node.
  destruct h; cbn [negb]; [constructor |].
  assert (Hloop : forall rest pre s,
             cs = pre ++ rest ->
             Forall (fun c =>
                       exists q consumed w',
                         c = c_on_touch (q ++ p) event consumed
                         /\ Routing.subwidget (mkWidget false rect cs) (rev q) = Some w'
                         /\ hidden w' = false
                         /\ Rect.contains (screen_rect w')
                              (TouchEvent.point event) = true)
                    (calls (touch_children rest (length pre) p event s))).
  { induction rest as [|child rest IHrest]; intros pre s0 Hcs; [constructor |].
    cbn [touch_children]. rewrite calls_bind. apply Forall_app. split.
    - assert (Hchild : Forall
                (fun c =>
                   exists q consumed w',
                     c = c_on_touch (q ++ length pre :: p) event consumed
                     /\ Routing.subwidget child (rev q) = Some w'
                     /\ hidden w' = false
                     /\ Rect.contains (screen_rect w')
                          (TouchEvent.point event) = true)
                (calls (touch_widget child (length pre :: p) event s0))).
      { rewrite Hcs in IH. apply Forall_app in IH as [_ IH].
        apply Forall_inv in IH. apply IH. }
      eapply Forall_impl; [exact Hchild |].
      intros c (q & consumed & w' & -> & Hsub & Hvis & Hin).
      exists (q ++ [length pre]), consumed, w'.
      split; [rewrite <- app_assoc; reflexivity |].
      split; [| auto].
      rewrite rev_app_distr.
      change (rev [length pre] ++ rev q) with (length pre :: rev q).
      cbn [Routing.subwidget hidden children].
      rewrite Hcs, nth_error_app2, Nat.sub_diag by lia. exact Hsub.
    - destruct (result (touch_widget child (length pre :: p) event s0));
        [constructor |].
      specialize (IHrest (pre ++ [child])
                    (state_after (touch_widget child (length pre :: p) event s0))).
      rewrite length_app in IHrest. cbn [length] in IHrest.
      replace (length pre + 1) with (S (length pre)) in IHrest by lia.
      apply IHrest. rewrite <- app_assoc. exact Hcs. }
  rewrite calls_bind. apply Forall_app. split.
  - apply (Hloop cs [] s). reflexivity.
  - destruct (result (touch_children cs 0 p event s)); [constructor |].
    destruct (Rect.contains rect (TouchEvent.point event)) eqn:Hin;
      [| constructor].
    rewrite calls_bind. apply Forall_app. split; [| 
      destruct (result (widget_on_touch p event _)); constructor].
    destruct (widget_on_touch_call p event
                (state_after (touch_children cs 0 p event s)))
      as [consumed ->].
    repeat constructor. exists [], consumed, (mkWidget false rect cs).
    repeat split. exact Hin.
Qed.

(** A hit test that resolves nothing has asked every visible widget under
    the point, and each of them declined. *)
Lemma touch_widget_unresolved_asks_all (w : Widget) :
  forall (p : WidgetPtr) event s,
    result (touch_widget w p event s) = None ->
    forall q w',
      Routing.subwidget w (rev q) = Some w' ->
      hidden w' = false ->
      Rect.contains (screen_rect w') (TouchEvent.point event) = true ->
      In (c_on_touch (q ++ p) event false) (calls (touch_widget w p event s)).
Proof.
  induction w as [h rect cs IH] using Widget_children_ind.
  intros p event s Hnone q w' Hsub Hvis Hin.
  rewrite touch_widget_node in Hnone |- *.
  destruct h; cbn [negb] in *.
  { destruct (rev q) as [|i route]; cbn in Hsub; [| discriminate].
    injection Hsub as <-. discriminate. }
  assert (Hloop : forall rest i s0,
             result (touch_children rest i p event s0) = None ->
             forall j child,
               nth_error rest j = Some child ->
               exists s',
                 result (touch_widget child (i + j :: p) event s') = None
                 /\ incl (calls (touch_widget child (i + j :: p) event s'))
                      (calls (touch_children rest i p event s0))).
  { clear. induction rest as [|first rest IHrest];
      intros i s0 Hrest j child Hj; [destruct j; discriminate |].
    cbn [touch_children] in Hrest |- *. rewrite result_bind in Hrest.
    destruct (result (touch_widget first (i :: p) event s0)) eqn:Hfirst;
      [discriminate |].
    rewrite calls_bind, Hfirst.
    destruct j as [|j]; cbn [nth_error] in Hj.
    - injection Hj as <-. exists s0. rewrite Nat.add_0_r.
      split; [exact Hfirst | apply incl_appl, incl_refl].
    - destruct (IHrest (S i) _ Hrest j child Hj) as (s' & Hchild & Hincl).
      exists s'. replace (i + S j) with (S i + j) by lia.
      split; [exact Hchild | apply incl_appr, Hincl]. }
  rewrite result_bind in Hnone. rewrite calls_bind.
  destruct (result (touch_children cs 0 p event s)) eqn:Hkids;
    [discriminate |].
  destruct (rev q) as [|i route] eqn:Hq.
  - apply (f_equal (@rev nat)) in Hq. rewrite rev_involutive in Hq. subst q.
    cbn in Hsub. injection Hsub as <-. cbn [screen_rect] in Hin.
    rewrite Hin in Hnone |- *. apply in_or_app. right.
    unfold bind, widget_on_touch in Hnone |- *.
    destruct (on_touch p event
                (app (state_after (touch_children cs 0 p event s))))
      as [[|] a]; [discriminate | left; reflexivity].
  - apply (f_equal (@rev nat)) in Hq. rewrite rev_involutive in Hq. subst q.
    cbn [Routing.subwidget hidden children] in Hsub.
    destruct (nth_error cs i) as [child|] eqn:Hi; [| discriminate].
    destruct (Hloop cs 0%nat s Hkids i child Hi) as (s' & Hchild & Hincl).
    rewrite List.Forall_forall in IH.
    specialize (IH child (nth_error_In _ _ Hi) (i :: p) event s' Hchild
                  (rev route) w').
    rewrite rev_involutive in IH. specialize (IH Hsub Hvis Hin).
    apply in_or_app. left. apply Hincl. cbn [Nat.add].
    cbn [rev]. rewrite <- app_assoc. exact IH.
Qed.


(** C10. A [Move] or [End] event leaves the captured widget as it was; so
    after an [End] the widget is still captured, and a [Move] or [End]
    that arrives without a [Start] in between is delivered to it; only a
    [Start] assigns the field, to the result of its hit test. *)
Theorem captured_widget_assigned_by_start_only :
  (forall event s,
      TouchEvent.type event <> TouchEvent.Start ->
      captured_widget (state_after (on_touch_event event s)) = captured_widget s)
  /\ (forall finish next w s,
         TouchEvent.type finish = TouchEvent.End_ ->
         TouchEvent.type next <> TouchEvent.Start ->
         captured_widget s = Some w ->
         let s1 := state_after (on_touch_event finish s) in
         captured_widget s1 = Some w
         /\ exists consumed,
             calls (on_touch_event next s1) = [c_on_touch w next consumed])
  /\ (forall event s,
         TouchEvent.type event = TouchEvent.Start ->
         captured_widget (state_after (on_touch_event event s))
         = result (touch_widget (top_widget s) [] event s)).
Proof.
  split; [| split].
  - apply on_touch_event_keeps_capture.
  - intros finish next w s Hend Hnext Hw s1.
    assert (Hkeep : captured_widget s1 = Some w).
    { subst s1. rewrite on_touch_event_keeps_capture; [exact Hw | congruence]. }
    split; [exact Hkeep |].
    rewrite (on_touch_event_captured _ _ Hnext), Hkeep.
    destruct (widget_on_touch_call w next s1) as [consumed Hcall].
    exists consumed. exact Hcall.
  - apply on_touch_event_captures.
Qed.

End TouchCapture.

(** ** Key bubbling *)

Section FocusRouter.
Context `{tcfg : Touch.Config} `{plat : Platform} `{appl : Application}.
Import Event.

Implicit Types (s : System) (event : KeyEvent).

Lemma ancestors_parent (w : WidgetPtr) :
  ancestors w = w :: chain (parent w).
Proof. destruct w; reflexivity. Qed.

(** The loop stops at the first widget of the parent chain that consumes
    the event, or runs off the root. *)
Lemma bubble_key_walk (target : WidgetPtr) event s :
  let r := bubble_key target event s in
  (result r = None /\ calls r = declined event (ancestors target))
  \/ (exists before w after,
         ancestors target = before ++ w :: after
         /\ result r = Some w
         /\ calls r = declined event before ++ [c_on_key w event true]).
Proof.
  revert s. induction target as [|i up IH]; intros s.
  - cbn [bubble_key ancestors]. unfold bind, widget_on_key.
    destruct (on_key [] event (app s)) as [[|] a]; cbn.
    + right. exists [], [], []. auto.
    + left. auto.
  - cbn [bubble_key ancestors]. unfold bind, widget_on_key.
    destruct (on_key (i :: up) event (app s)) as [[|] a].
    + right. exists [], (i :: up), (ancestors up). cbn. auto.
    + specialize (IH (with_app a s)). cbv zeta in IH.
      destruct (bubble_key up event (with_app a s)) as [[o s1] t1].
      cbn [result calls fst snd] in *.
      destruct IH as [[Ho Ht] | (before & w & after & Hline & Ho & Ht)].
      * left. subst. auto.
      * right. exists ((i :: up) :: before), w, after.
        rewrite Hline. subst. auto.
Qed.

(** C8. Bubbling a key event calls [on_key] on the focused widget, then on
    its parent, and so on: either every widget up to the root declines and
    the event is not consumed, or the walk stops at the first widget that
    consumes it; and the focus manager's [update] is called with the event
    exactly when it was not consumed. *)
Theorem key_event_bubbles event s :
  let bubbled := event_bubble_key event s in
  let line := chain (focus_widget (app s)) in
  ((result bubbled = false /\ calls bubbled = declined event line)
   \/ (result bubbled = true
       /\ exists before w after,
           line = before ++ w :: after
           /\ calls bubbled = declined event before ++ [c_on_key w event true]))
  /\ calls (handle_key event s)
     = calls bubbled
       ++ (if result bubbled then [] else [c_focus_manager_update event]).
Proof.
  cbv zeta. split.
  - unfold event_bubble_key, bind, gets, ret. cbn [fst snd].
    destruct (focus_widget (app s)) as [target|]; cbn [chain].
    + pose proof (bubble_key_walk target event s) as Hwalk. cbv zeta in Hwalk.
      destruct (bubble_key target event s) as [[o s1] t1].
      cbn [result calls fst snd] in *.
      destruct Hwalk as [[-> ->] | (before & w & after & Hline & -> & ->)].
      * left. rewrite app_nil_r. auto.
      * right. rewrite app_nil_r. split; [reflexivity |]. eauto.
    + left. auto.
  - unfold handle_key, bind.
    destruct (event_bubble_key event s) as [[[|] s1] t1]; reflexivity.
Qed.

(** With the display awake, [handle_switches] is the switch read followed
    by [handle_key] for each pressed switch in index order. *)
Lemma handle_switches_awake (inputs : Inputs) s :
  display_sleep s = false ->
  handle_switches inputs s
  = bind (call c_get_switches_state)
      (fun _ => handle_keys (switches_state inputs) 0) s.
Proof.
  intros Hawake. unfold handle_switches, bind, gets, call. cbn [fst snd].
  rewrite Hawake. destruct (handle_keys (switches_state inputs) 0 s) as [[[] s1] t1].
  reflexivity.
Qed.

End FocusRouter.

(** ** The dispatch cycle *)

Section Dispatch.
Context `{tcfg : Touch.Config} `{plat : Platform} `{appl : Application}.
Import Event.

Implicit Types (s : System).

Lemma quiet_ret {A} (a : A) s : quiet s (ret a s).
Proof. split; [apply app_only_refl | constructor]. Qed.

Lemma quiet_bind {A B} (c : M A) (k : A -> M B) s :
  quiet s (c s) ->
  (forall a s1, app_only s s1 -> quiet s1 (k a s1)) ->
  quiet s (bind c k s).
Proof.
  intros [Ha1 Hc1] Hk. unfold bind.
  destruct (c s) as [[a s1] t1]. cbn [state_after calls fst snd] in *.
  destruct (Hk a s1 Ha1) as [Ha2 Hc2].
  destruct (k a s1) as [[b s2] t2]. cbn [state_after calls fst snd] in *.
  split; [eapply app_only_trans; eassumption | apply Forall_app; auto].
Qed.

Lemma quiet_when (b : bool) (c : M unit) s :
  (b = true -> quiet s (c s)) -> quiet s (when b c s).
Proof. destruct b; cbn; auto using quiet_ret. Qed.

Lemma quiet_call (c : Call) s : unserving c -> quiet s (call c s).
Proof. intros Hc. split; [apply app_only_refl | repeat constructor; exact Hc]. Qed.

Lemma quiet_send (message : Message.t) s : quiet s (send message s).
Proof.
  split; [apply send_frame |].
  unfold send. destruct (Message.id message <? ID_MAX); [| constructor].
  unfold bind, gets. cbn [fst snd].
  destruct (message_map s !! Message.id message); repeat constructor.
  intros []; reflexivity.
Qed.

Lemma quiet_handle (queue : list Message.t) s : quiet s (handle queue send s).
Proof.
  revert s. induction queue as [|message rest IH]; intros s.
  - apply quiet_ret.
  - cbn [handle]. apply quiet_bind; [apply quiet_send | auto].
Qed.

Lemma quiet_handle_rtc_tick s : quiet s (handle_rtc_tick s).
Proof.
  unfold handle_rtc_tick.
  repeat (apply quiet_bind; [| intros _ ? _]);
    apply quiet_call; intros []; reflexivity.
Qed.

(** Asleep and with no switch pressed, [handle_switches] only reads the
    switches. *)
Lemma quiet_handle_switches (inputs : Inputs) s :
  display_sleep s = true ->
  existsb id (switches_state inputs) = false ->
  quiet s (handle_switches inputs s).
Proof.
  intros Hasleep Hnone. unfold handle_switches.
  apply quiet_bind; [apply quiet_call; intros []; reflexivity |].
  intros _ s1 Ha. unfold bind, gets. cbn [fst snd].
  assert (Hs1 : display_sleep s1 = true).
  { unfold app_only in Ha. rewrite Ha. exact Hasleep. }
  rewrite Hs1, Hnone. cbn. split; [apply app_only_refl | constructor].
Qed.

Lemma serviced_unserving (source : Source) (trace : list Call) :
  Forall unserving trace -> serviced source trace = false.
Proof.
  unfold serviced. induction 1 as [|c trace Hc _ IH]; [reflexivity |].
  cbn. rewrite (Hc source), IH. reflexivity.
Qed.

Lemma send_unhandled (message : Message.t) s :
  Routing.handled_by (message_map s) message = [] -> send message s = (tt, s, []).
Proof.
  unfold Routing.handled_by, send. destruct (Message.id message <? ID_MAX);
    [| reflexivity].
  unfold bind, gets. cbn [fst snd].
  destruct (message_map s !! Message.id message); [discriminate | reflexivity].
Qed.

(** A queue without a handled message is drained without a call. *)
Lemma handle_unhandled (queue : list Message.t) s :
  Forall (fun message => Routing.handled_by (message_map s) message = []) queue ->
  handle queue send s = (tt, s, []).
Proof.
  induction 1 as [|message rest Hmessage _ IH]; [reflexivity |].
  cbn [handle]. unfold bind. rewrite (send_unhandled _ _ Hmessage), IH.
  reflexivity.
Qed.

Lemma when_handle_unhandled (b : bool) (queue : list Message.t) s :
  (b = true ->
   Forall (fun message => Routing.handled_by (message_map s) message = []) queue) ->
  when b (handle queue send) s = (tt, s, []).
Proof.
  destruct b; cbn [when]; [| reflexivity].
  intros Hqueue. apply handle_unhandled. auto.
Qed.

Lemma when_handle_rtc_tick (b : bool) s :
  when b handle_rtc_tick s
  = (tt, s, if b then [c_poll_inserted; c_second_tick; c_on_tick_second]
            else []).
Proof. destruct b; reflexivity. Qed.

(** Asleep, [handle_switches] runs no callback: it reads the switches and
    wakes the display if one is pressed. *)
Lemma when_handle_switches_asleep (b : bool) (inputs : Inputs) s :
  display_sleep s = true ->
  when b (handle_switches inputs) s
  = if b && existsb id (switches_state inputs)
    then (tt, with_display_sleep false s,
          [c_get_switches_state; c_display_wake; c_lcd_backlight true])
    else (tt, s, if b then [c_get_switches_state] else []).
Proof.
  intros Hasleep. destruct b; cbn [when andb]; [| reflexivity].
  unfold handle_switches, bind, call, gets. cbn [fst snd].
  rewrite Hasleep. destruct (existsb id (switches_state inputs)); reflexivity.
Qed.


(** *** The gate, exactly *)

Lemma serviced_app (source : Source) (t1 t2 : list Call) :
  serviced source (t1 ++ t2) = serviced source t1 || serviced source t2.
Proof. apply existsb_app. Qed.

Lemma unserving_on_touch w event consumed : unserving (c_on_touch w event consumed).
Proof. intros []; reflexivity. Qed.

Lemma unserving_on_key w event consumed : unserving (c_on_key w event consumed).
Proof. intros []; reflexivity. Qed.

Lemma unserving_on_encoder w event consumed : unserving (c_on_encoder w event consumed).
Proof. intros []; reflexivity. Qed.

Lemma quiet_bubble_key (target : WidgetPtr) (event : KeyEvent) s :
  quiet s (bubble_key target event s).
Proof.
  revert s. induction target as [|i up IH]; intros s;
    cbn [bubble_key]; apply quiet_bind.
  - unfold widget_on_key. destruct (on_key [] event (app s)).
    split; [reflexivity | repeat constructor; apply unserving_on_key].
  - intros [|] s1 _; apply quiet_ret.
  - unfold widget_on_key. destruct (on_key (i :: up) event (app s)).
    split; [reflexivity | repeat constructor; apply unserving_on_key].
  - intros [|] s1 _; [apply quiet_ret | apply IH].
Qed.

Lemma quiet_handle_key (event : KeyEvent) s : quiet s (handle_key event s).
Proof.
  unfold handle_key, event_bubble_key.
  apply quiet_bind.
  - apply quiet_bind; [apply quiet_ret |]. intros focus s1 _.
    apply quiet_bind; [| intros; apply quiet_ret].
    destruct focus; [apply quiet_bubble_key | apply quiet_ret].
  - intros consumed s1 _. apply quiet_when. intros _.
    split; [reflexivity | repeat constructor; intros []; reflexivity].
Qed.

Lemma quiet_handle_keys (bits : list bool) (i : nat) s :
  quiet s (handle_keys bits i s).
Proof.
  revert i s. induction bits as [|bit rest IH]; intros i s.
  - apply quiet_ret.
  - cbn [handle_keys]. apply quiet_bind; [| intros; apply IH].
    apply quiet_when. intros _. apply quiet_handle_key.
Qed.

Lemma quiet_bubble_encoder (target : WidgetPtr) (event : EncoderEvent) s :
  quiet s (bubble_encoder target event s).
Proof.
  revert s. induction target as [|i up IH]; intros s;
    cbn [bubble_encoder]; apply quiet_bind.
  - unfold widget_on_encoder. destruct (on_encoder [] event (app s)).
    split; [reflexivity | repeat constructor; apply unserving_on_encoder].
  - intros [|] s1 _; apply quiet_ret.
  - unfold widget_on_encoder. destruct (on_encoder (i :: up) event (app s)).
    split; [reflexivity | repeat constructor; apply unserving_on_encoder].
  - intros [|] s1 _; [apply quiet_ret | apply IH].
Qed.

(** [handle_switches] services no gated source; it leaves the display
    asleep only if it was asleep and no switch is pressed. *)
Lemma handle_switches_run (inputs : Inputs) s :
  Forall unserving (calls (handle_switches inputs s))
  /\ display_sleep (state_after (handle_switches inputs s))
     = display_sleep s && negb (existsb id (switches_state inputs))
  /\ same_touch_members s (state_after (handle_switches inputs s)).
Proof.
  destruct (display_sleep s) eqn:Hsleep.
  - unfold handle_switches, bind, call, gets. cbn [fst snd]. rewrite Hsleep.
    destruct (existsb id (switches_state inputs)); cbn.
    + repeat split. repeat constructor; intros []; reflexivity.
    + repeat split; [repeat constructor; intros []; reflexivity | exact Hsleep].
  - rewrite (handle_switches_awake _ _ Hsleep).
    assert (Hq : quiet s (bind (call c_get_switches_state)
                            (fun _ => handle_keys (switches_state inputs) 0) s)).
    { apply quiet_bind; [apply quiet_call; intros []; reflexivity |].
      intros; apply quiet_handle_keys. }
    destruct Hq as [Ha Hc]. split; [exact Hc |].
    unfold app_only in Ha. rewrite Ha. cbn. repeat split. exact Hsleep.
Qed.

Lemma on_touch_event_unserving (event : TouchEvent.t) s :
  Forall unserving (calls (on_touch_event event s)).
Proof.
  destruct (TouchEvent.type event) eqn:Htype.
  - rewrite (on_touch_event_start _ _ Htype).
    destruct (touch_widget_hit_test (top_widget s) [] event s) as (_ & Hc & _).
    assert (Hhit : Forall unserving (calls (touch_widget (top_widget s) [] event s))).
    { eapply Forall_impl; [exact Hc |]. intros c (w & consumed & ->).
      apply unserving_on_touch. }
    destruct (result (touch_widget (top_widget s) [] event s)) as [w|];
      [| exact Hhit].
    match goal with |- Forall _ (calls (_, _, ?t)) =>
      change (Forall unserving t) end.
    apply Forall_app. split; [exact Hhit |].
    match goal with |- context [widget_on_touch w event ?s1] =>
      destruct (widget_on_touch_call w event s1) as [consumed Hcall] end.
    rewrite Hcall. repeat constructor. apply unserving_on_touch.
  - rewrite on_touch_event_captured by congruence.
    destruct (captured_widget s) as [w|]; [| constructor].
    destruct (widget_on_touch_call w event s) as [consumed Hcall].
    match goal with |- Forall _ (calls (_, _, ?t)) =>
      change (Forall unserving t) end.
    rewrite Hcall. repeat constructor. apply unserving_on_touch.
  - rewrite on_touch_event_captured by congruence.
    destruct (captured_widget s) as [w|]; [| constructor].
    destruct (widget_on_touch_call w event s) as [consumed Hcall].
    match goal with |- Forall _ (calls (_, _, ?t)) =>
      change (Forall unserving t) end.
    rewrite Hcall. repeat constructor. apply unserving_on_touch.
Qed.

Lemma on_touch_events_unserving (events : list TouchEvent.t) s :
  Forall unserving (calls (on_touch_events events s)).
Proof.
  revert s. induction events as [|event rest IH]; intros s; [constructor |].
  cbn [on_touch_events]. rewrite calls_bind.
  apply Forall_app. split; [apply on_touch_event_unserving | apply IH].
Qed.

(** Each handler behind the gate services its own source and no other. *)
Lemma handle_lcd_frame_sync_services (source : Source) s :
  serviced source (calls (handle_lcd_frame_sync s))
  = match source with LcdFrameSync => true | _ => false end.
Proof.
  unfold handle_lcd_frame_sync. rewrite calls_bind, serviced_app.
  destruct (quiet_send (Message.mk ID_DisplayFrameSync []) s) as [_ Hc].
  rewrite (serviced_unserving _ _ Hc). destruct source; reflexivity.
Qed.

Lemma handle_encoder_services (inputs : Inputs) (source : Source) s :
  serviced source (calls (handle_encoder inputs s))
  = match source with Encoder => true | _ => false end.
Proof.
  unfold handle_encoder. rewrite calls_bind, serviced_app.
  match goal with |- _ || serviced _ ?rest = _ =>
    assert (Hrest : Forall unserving rest) end.
  { rewrite calls_bind. apply Forall_app. split; [constructor |].
    rewrite calls_bind. apply Forall_app. split; [constructor |].
    unfold event_bubble_encoder. rewrite calls_bind.
    apply Forall_app. split; [constructor |].
    match goal with |- context [match ?focus with _ => _ end] =>
      destruct focus end; [apply quiet_bubble_encoder | constructor]. }
  rewrite (serviced_unserving _ _ Hrest). destruct source; reflexivity.
Qed.

Lemma handle_touch_services (inputs : Inputs) (source : Source) s :
  serviced source (calls (handle_touch inputs s))
  = match source with TouchPanel => true | _ => false end.
Proof.
  unfold handle_touch. rewrite calls_bind, serviced_app.
  match goal with |- _ || serviced _ ?rest = _ =>
    assert (Hrest : Forall unserving rest) end.
  { unfold touch_manager_feed. rewrite calls_bind.
    apply Forall_app. split; [constructor |].
    cbn [result state_after gets fst snd].
    destruct (Touch.feed (touch_frame inputs) _) as [m' fired].
    rewrite calls_bind. apply Forall_app. split; [constructor |].
    apply on_touch_events_unserving. }
  rewrite (serviced_unserving _ _ Hrest). destruct source; reflexivity.
Qed.

Lemma serviced_when (source : Source) (b : bool) (c : M unit) s :
  serviced source (calls (when b c s)) = b && serviced source (calls (c s)).
Proof. destruct b; reflexivity. Qed.

(** With no switch pressed, [handle_keys] routes nothing. *)
Lemma handle_keys_unpressed (bits : list bool) (i : nat) s :
  existsb id bits = false -> handle_keys bits i s = (tt, s, []).
Proof.
  revert i. induction bits as [|bit rest IH]; intros i Hbits; [reflexivity |].
  cbn [existsb] in Hbits. apply orb_false_iff in Hbits as [Hbit Hrest].
  unfold id in Hbit. subst bit. cbn [handle_keys when]. unfold bind.
  cbn [ret]. rewrite (IH _ Hrest). reflexivity.
Qed.

(** The switch stage of a cycle in which no key is routed: at most the
    switch read and, asleep with a switch pressed, the wake. *)
Lemma when_handle_switches_unrouted (events : Z) (inputs : Inputs) s :
  Routing.no_key_routed events inputs s ->
  when (pending events EVT_MASK_SWITCHES) (handle_switches inputs) s
  = if display_sleep s
       && (pending events EVT_MASK_SWITCHES
           && existsb id (switches_state inputs))
    then (tt, with_display_sleep false s,
          [c_get_switches_state; c_display_wake; c_lcd_backlight true])
    else (tt, s,
          if pending events EVT_MASK_SWITCHES
          then [c_get_switches_state] else []).
Proof.
  intros Hkeys. destruct (display_sleep s) eqn:Hsleep.
  - rewrite (when_handle_switches_asleep _ _ _ Hsleep). reflexivity.
  - cbn [andb]. destruct Hkeys as [Hasleep | [Hbit | Hnone]].
    + congruence.
    + rewrite Hbit. reflexivity.
    + destruct (pending events EVT_MASK_SWITCHES); cbn [when]; [| reflexivity].
      rewrite (handle_switches_awake _ _ Hsleep). unfold bind, call.
      rewrite (handle_keys_unpressed _ _ _ Hnone). reflexivity.
Qed.

(** X14. In a cycle in which no callback runs before the gate is tested
    (no message handler while the queues are drained, no key routed by the
    switch handling), a gated source is serviced exactly when its bit is
    pending and the gate is open: the display was awake on entry, or a
    pressed switch has just woken it. *)
Theorem dispatch_services (events : Z) (inputs : Inputs) (source : Source) s :
  Routing.no_handler_runs events inputs s ->
  Routing.no_key_routed events inputs s ->
  serviced source (calls (dispatch events inputs s))
  = gate_open events inputs s && pending events (mask_of source).
Proof.
  intros [Happ Hlocal] Hkeys.
  unfold dispatch, gate_open, handle_application_queue, handle_local_queue.
  rewrite calls_bind, (when_handle_unhandled _ _ _ Happ).
  cbn [calls result state_after fst snd]. rewrite app_nil_l.
  rewrite calls_bind, (when_handle_unhandled _ _ _ Hlocal).
  cbn [calls result state_after fst snd]. rewrite app_nil_l.
  rewrite calls_bind, serviced_app.
  assert (Hq3 : quiet s (when (pending events EVT_MASK_RTC_TICK)
                           handle_rtc_tick s))
    by (apply quiet_when; intros _; apply quiet_handle_rtc_tick).
  rewrite (serviced_unserving _ _ (proj2 Hq3)). cbn [orb].
  rewrite when_handle_rtc_tick. cbn [result state_after fst snd].
  rewrite calls_bind, serviced_app.
  rewrite (when_handle_switches_unrouted _ _ _ Hkeys).
  destruct (display_sleep s) eqn:Hsleep; cbn [andb negb orb].
  - destruct (pending events EVT_MASK_SWITCHES
              && existsb id (switches_state inputs)) eqn:Hwake.
    + cbn [result state_after calls fst snd].
      rewrite calls_bind. cbn [gets calls result state_after fst snd].
      cbn [display_sleep with_display_sleep negb when].
      rewrite app_nil_l.
      rewrite calls_bind, serviced_app, serviced_when,
        handle_lcd_frame_sync_services.
      rewrite calls_bind, serviced_app, serviced_when, handle_encoder_services.
      rewrite serviced_when, handle_touch_services.
      destruct source; cbn [mask_of serviced existsb services orb];
        rewrite ?andb_false_r, ?andb_true_r, ?orb_false_r; reflexivity.
    + cbn [result state_after calls fst snd].
      rewrite calls_bind. cbn [gets calls result state_after fst snd].
      rewrite Hsleep. cbn [negb when ret calls snd].
      destruct (pending events EVT_MASK_SWITCHES), source; reflexivity.
  - cbn [result state_after calls fst snd].
    rewrite calls_bind. cbn [gets calls result state_after fst snd].
    rewrite Hsleep. cbn [negb when]. rewrite app_nil_l.
    rewrite calls_bind, serviced_app, serviced_when,
      handle_lcd_frame_sync_services.
    rewrite calls_bind, serviced_app, serviced_when, handle_encoder_services.
    rewrite serviced_when, handle_touch_services.
    destruct (pending events EVT_MASK_SWITCHES), source;
      cbn [mask_of serviced existsb services orb];
      rewrite ?andb_false_r, ?andb_true_r, ?orb_false_r; reflexivity.
Qed.

(** *** The captured widget across a cycle *)

Lemma same_touch_members_refl s : same_touch_members s s.
Proof. repeat split. Qed.

Lemma same_touch_members_trans s1 s2 s3 :
  same_touch_members s1 s2 -> same_touch_members s2 s3 ->
  same_touch_members s1 s3.
Proof.
  intros (Ht1 & Hc1 & Hm1) (Ht2 & Hc2 & Hm2). repeat split; congruence.
Qed.

Lemma app_only_same_touch_members s s' :
  app_only s s' -> same_touch_members s s'.
Proof. unfold app_only. intros ->. repeat split. Qed.

Lemma quiet_same_touch_members {A} s (r : A * System * list Call) :
  quiet s r -> same_touch_members s (state_after r).
Proof. intros [Ha _]. apply app_only_same_touch_members, Ha. Qed.

Lemma handle_lcd_frame_sync_members s :
  same_touch_members s (state_after (handle_lcd_frame_sync s)).
Proof.
  unfold handle_lcd_frame_sync. rewrite state_after_bind.
  apply app_only_same_touch_members, send_frame.
Qed.

Lemma handle_encoder_members (inputs : Inputs) s :
  same_touch_members s (state_after (handle_encoder inputs s)).
Proof.
  unfold handle_encoder. rewrite !state_after_bind.
  cbn [call gets modify result state_after fst snd].
  unfold event_bubble_encoder. rewrite state_after_bind.
  cbn [gets result state_after fst snd].
  match goal with |- context [match ?focus with _ => _ end] =>
    destruct focus as [w|] end.
  - eapply same_touch_members_trans;
      [| apply quiet_same_touch_members, quiet_bubble_encoder].
    repeat split.
  - repeat split.
Qed.

(** X21. A cycle in which the touch manager starts no touch leaves the
    captured widget as it was, whatever else the cycle handles. *)
Lemma dispatch_keeps_capture (events : Z) (inputs : Inputs) s :
  ~ In Touch.touch_started (Touch.feed (touch_frame inputs) (touch_manager s)).2 ->
  captured_widget (state_after (dispatch events inputs s)) = captured_widget s.
Proof.
  intros Hquiet. unfold dispatch.
  rewrite state_after_bind.
  set (r1 := when (pending events EVT_MASK_APPLICATION)
               (handle_application_queue inputs) s).
  assert (H1 : same_touch_members s (state_after r1)).
  { apply quiet_same_touch_members, quiet_when. intros _. apply quiet_handle. }
  rewrite state_after_bind.
  set (r2 := when (pending events EVT_MASK_LOCAL) (handle_local_queue inputs)
               (state_after r1)).
  assert (H2 : same_touch_members s (state_after r2)).
  { eapply same_touch_members_trans; [exact H1 |].
    apply quiet_same_touch_members, quiet_when. intros _. apply quiet_handle. }
  rewrite state_after_bind.
  set (r3 := when (pending events EVT_MASK_RTC_TICK) handle_rtc_tick
               (state_after r2)).
  assert (H3 : same_touch_members s (state_after r3)).
  { eapply same_touch_members_trans; [exact H2 |].
    apply quiet_same_touch_members, quiet_when. intros _.
    apply quiet_handle_rtc_tick. }
  rewrite state_after_bind.
  set (r4 := when (pending events EVT_MASK_SWITCHES) (handle_switches inputs)
               (state_after r3)).
  assert (H4 : same_touch_members s (state_after r4)).
  { eapply same_touch_members_trans; [exact H3 |]. subst r4.
    destruct (pending events EVT_MASK_SWITCHES); cbn [when].
    - apply handle_switches_run.
    - apply same_touch_members_refl. }
  rewrite state_after_bind. cbn [gets result state_after fst snd].
  destruct (display_sleep (state_after r4)); cbn [negb when ret];
    [exact (proj1 (proj2 H4)) |].
  rewrite state_after_bind.
  set (r5 := when (pending events EVT_MASK_LCD_FRAME_SYNC) handle_lcd_frame_sync
               (state_after r4)).
  assert (H5 : same_touch_members s (state_after r5)).
  { eapply same_touch_members_trans; [exact H4 |]. subst r5.
    destruct (pending events EVT_MASK_LCD_FRAME_SYNC); cbn [when].
    - apply handle_lcd_frame_sync_members.
    - apply same_touch_members_refl. }
  rewrite state_after_bind.
  set (r6 := when (pending events EVT_MASK_ENCODER) (handle_encoder inputs)
               (state_after r5)).
  assert (H6 : same_touch_members s (state_after r6)).
  { eapply same_touch_members_trans; [exact H5 |]. subst r6.
    destruct (pending events EVT_MASK_ENCODER); cbn [when].
    - apply handle_encoder_members.
    - apply same_touch_members_refl. }
  destruct H6 as (_ & Hc6 & Hm6).
  destruct (pending events EVT_MASK_TOUCH); cbn [when]; [| exact Hc6].
  unfold handle_touch. rewrite state_after_bind.
  cbn [call result state_after fst snd].
  unfold touch_manager_feed. rewrite state_after_bind.
  cbn [gets result state_after fst snd].
  change ((r6.1).2) with (state_after r6). rewrite Hm6.
  destruct (Touch.feed (touch_frame inputs) (touch_manager s)) as [m' fired].
  cbn [snd] in Hquiet.
  rewrite state_after_bind. cbn [modify result state_after fst snd].
  destruct (on_touch_events_captured (map (Touch.fire_event m') fired)
              (with_touch_manager m' (state_after r6))) as [Hkeep _].
  - apply List.Forall_forall. intros event Hin.
    apply in_map_iff in Hin as (fired_call & <- & Hin).
    destruct fired_call; cbn; congruence.
  - rewrite Hkeep. exact Hc6.
Qed.

End Dispatch.

(** ** The theorems at work on the fixtures *)

Section Fixtures.
Import Touch Event Fixture.

(** Three firm samples settle the fixture filter; two more move; a light
    sample ends the touch. *)
Lemma feed_gesture_witness :
  let run := [firm; firm; firm] in
  let further := [firm; firm] in
  (state idle = NoTouch
   /\ run <> []
   /\ Forall (fun frame => qualified frame = true) run
   /\ point_stable (feed_all run idle).1 = true
   /\ Forall (fun frame => qualified frame = true) further
   /\ qualified light = false)
  /\ let started := feed_all run idle in
     let moved := feed_all further started.1 in
     let ended := feed light moved.1 in
     (state started.1 = TouchDetected
      /\ exists k, started.2 = touch_started :: repeat touch_moved k)
     /\ (state moved.1 = TouchDetected
         /\ moved.2 = repeat touch_moved (length further))
     /\ (state ended.1 = NoTouch /\ ended.2 = [touch_ended]).
Proof.
  intros run further.
  assert (H1 : state idle = NoTouch) by reflexivity.
  assert (H2 : run <> []) by discriminate.
  assert (H3 : Forall (fun frame => qualified frame = true) run)
    by (repeat constructor).
  assert (H4 : point_stable (feed_all run idle).1 = true)
    by (vm_compute; reflexivity).
  assert (H5 : Forall (fun frame => qualified frame = true) further)
    by (repeat constructor).
  assert (H6 : qualified light = false)
    by (vm_compute; reflexivity).
  split; [repeat split; assumption |].
  exact (feed_gesture idle run further light H1 H2 H3 H4 H5 H6).
Defined.

(** The events of that gesture, as the dispatcher receives them: the
    filtered point is the calibrated pixel (120, 160). *)
Example feed_gesture_events :
  let started := feed_all [firm; firm; firm] idle in
  map (fire_event started.1) started.2
  = [TouchEvent.mk (Point.mk 120 160) TouchEvent.Start].
Proof. vm_compute. reflexivity. Qed.

Section Eager.
#[local] Existing Instance eager.

(** One registration into the empty table succeeds; a second one on the
    same slot panics. *)
Lemma register_handler_once_witness :
  (3 < ID_MAX)%nat
  /\ (is_Some ((<[3%nat := 7%nat]> ∅ : gmap nat Handler) !! 3%nat) ->
      register_handler 3 9%nat (<[3%nat := 7%nat]> ∅)
      = Panics "MsgDblReg"%string)
  /\ ((∅ : gmap nat Handler) !! 3%nat = None ->
      exists map',
        register_handler 3 7%nat ∅ = Returns map'
        /\ map' !! 3%nat = Some 7%nat
        /\ forall other, other <> 3%nat ->
             map' !! other = (∅ : gmap nat Handler) !! other).
Proof.
  assert (H : (3 < ID_MAX)%nat) by (cbn; lia).
  split; [exact H |]. split.
  - exact (proj1 (register_handler_once 3 9%nat (<[3%nat := 7%nat]> ∅) H)).
  - exact (proj2 (register_handler_once 3 7%nat ∅ H)).
Defined.

(** A message for a registered ID reaches its handler. *)
Lemma send_dispatches_witness :
  let message := Message.mk 3 [] in
  let s := with_message_map {[3%nat := 7%nat]}
             (system eager 0%nat bare None false) in
  (Message.id message < ID_MAX)%nat
  /\ message_map s !! Message.id message = Some 7%nat
  /\ send message s
     = (tt, with_app (invoke 7%nat message (app s)) s, [c_fn 7%nat message]).
Proof.
  intros message s.
  assert (H1 : (Message.id message < ID_MAX)%nat) by (cbn; lia).
  assert (H2 : message_map s !! Message.id message = Some 7%nat)
    by (vm_compute; reflexivity).
  split; [exact H1 |]. split; [exact H2 |].
  exact (proj1 (send_dispatches message s) 7%nat H1 H2).
Defined.

(** A press lands on the first of the overlapping buttons; the drag and
    the release, far from it, still go to that button. *)
Lemma touch_capture_persists_witness :
  let s := system eager 0%nat overlapping None false in
  let rest := [drag; release] in
  (TouchEvent.type press = TouchEvent.Start
   /\ Forall (fun event => TouchEvent.type event <> TouchEvent.Start) rest)
  /\ let hit := touch_widget (top_widget s) [] press s in
     let s1 := state_after (on_touch_event press s) in
     captured_widget s1 = result hit
     /\ captured_widget (state_after (on_touch_events rest s1)) = result hit
     /\ forall w, result hit = Some w ->
          (exists consumed,
              calls (on_touch_event press s)
              = calls hit ++ [c_on_touch w press consumed])
          /\ delivered w rest (calls (on_touch_events rest s1)).
Proof.
  intros s rest.
  assert (H1 : TouchEvent.type press = TouchEvent.Start) by reflexivity.
  assert (H2 : Forall (fun event => TouchEvent.type event <> TouchEvent.Start) rest)
    by (repeat constructor; discriminate).
  split; [split; assumption |].
  exact (touch_capture_persists press rest s H1 H2).
Defined.

(** The calls of that gesture: the hit test asks the first button, the
    press is delivered to it, then the drag and the release. *)
Example touch_capture_persists_trace :
  let s := system eager 0%nat overlapping None false in
  calls (on_touch_events [press; drag; release] s)
  = [c_on_touch [0%nat] press true; c_on_touch [0%nat] press true;
     c_on_touch [0%nat] drag true; c_on_touch [0%nat] release true].
Proof. vm_compute. reflexivity. Qed.

(** After a release the button is still captured, and a stray drag reaches
    it. *)
Lemma captured_widget_assigned_by_start_only_witness :
  let s := system eager 0%nat overlapping (Some [0%nat]) false in
  (TouchEvent.type release = TouchEvent.End_
   /\ TouchEvent.type drag <> TouchEvent.Start
   /\ captured_widget s = Some [0%nat])
  /\ let s1 := state_after (on_touch_event release s) in
     captured_widget s1 = Some [0%nat]
     /\ exists consumed,
         calls (on_touch_event drag s1) = [c_on_touch [0%nat] drag consumed].
Proof.
  intros s.
  assert (H1 : TouchEvent.type release = TouchEvent.End_) by reflexivity.
  assert (H2 : TouchEvent.type drag <> TouchEvent.Start) by discriminate.
  assert (H3 : captured_widget s = Some [0%nat]) by reflexivity.
  split; [repeat split; assumption |].
  exact (proj1 (proj2 captured_widget_assigned_by_start_only)
           release drag [0%nat] s H1 H2 H3).
Defined.

End Eager.

Section Shy.
#[local] Existing Instance shy.





(** Nobody consumes the key: the whole parent chain is asked, then the
    focus manager. *)
Example key_event_unconsumed :
  let s := system shy 0%nat overlapping None false in
  calls (handle_key 4%nat s)
  = [c_on_key [1; 0]%nat 4%nat false; c_on_key [0%nat] 4%nat false;
     c_on_key [] 4%nat false; c_focus_manager_update 4%nat].
Proof. vm_compute. reflexivity. Qed.

End Shy.

Section Keyed.
#[local] Existing Instance keyed.

(** The root consumes the key: the walk ends there and the focus manager
    is not called. *)
Example key_event_consumed :
  let s := system keyed 0%nat overlapping None false in
  calls (handle_key 4%nat s)
  = [c_on_key [1; 0]%nat 4%nat false; c_on_key [0%nat] 4%nat false;
     c_on_key [] 4%nat true].
Proof. vm_compute. reflexivity. Qed.

End Keyed.

End Fixtures.

(** * Further properties of the code *)

(** ** The touch manager *)

Section TouchManager.
Context `{cfg : Touch.Config}.
Import Touch Gesture.

Implicit Types (m : Manager) (frame : Frame.t).

(** One sample, by the state it finds and whether it qualifies. *)
Lemma feed_cases m frame :
  let r := feed frame m in
  match state m with
  | NoTouch =>
      if qualified frame && point_stable r.1
      then state r.1 = TouchDetected /\ r.2 = [touch_started]
      else state r.1 = NoTouch /\ r.2 = []
  | TouchDetected =>
      if qualified frame
      then state r.1 = TouchDetected /\ r.2 = [touch_moved]
      else state r.1 = NoTouch /\ r.2 = [touch_ended]
  | Unrecognized => state r.1 = NoTouch /\ r.2 = []
  end.
Proof.
  cbv zeta. destruct (state m) eqn:Hs.
  - destruct (qualified frame) eqn:Hq; cbn [andb].
    + destruct (feed_NoTouch_qualified m frame Hs Hq)
        as [(H1 & H2 & H3) | (H1 & H2 & H3)]; rewrite H3; auto.
    + unfold qualified, contact, pressure_qualified in Hq.
      unfold feed. destruct (Frame.touch frame); cbn [andb] in Hq.
      * rewrite Hq. cbn [state]. rewrite Hs. cbn. auto.
      * cbn [state]. rewrite Hs. cbn. auto.
  - destruct (qualified frame) eqn:Hq.
    + apply feed_TouchDetected_qualified; assumption.
    + apply feed_TouchDetected_unqualified; assumption.
  - unfold feed. destruct (Frame.touch frame);
      [destruct (Metrics.r (calculate_metrics frame) <? r_touch_threshold)%f32 |];
      cbn [state]; rewrite Hs; cbn; auto.
Qed.

(** X1. Whatever the frames and whatever state the manager starts in, the
    notifications it makes form well-bracketed gestures: [touch_started]
    only when no touch is open, [touch_moved] and [touch_ended] only inside
    an open touch; and a touch is open at the end exactly when the manager
    is left in [TouchDetected]. *)
Theorem feed_all_bracketed (frames : list Frame.t) m :
  bracketed (touching m) (feed_all frames m).2
  = Some (touching (feed_all frames m).1).
Proof.
  revert m. induction frames as [|frame frames IH]; intros m; [reflexivity |].
  rewrite feed_all_cons. cbn [fst snd].
  pose proof (feed_cases m frame) as Hstep. cbv zeta in Hstep.
  specialize (IH (feed frame m).1).
  unfold touching in *.
  destruct (state m);
    [destruct (qualified frame && point_stable (feed frame m).1)
    | destruct (qualified frame) |];
    destruct Hstep as [Hs Hc]; rewrite Hc; rewrite Hs in IH; cbn; exact IH.
Qed.

(** X2. A touch is never started without contact, sufficient pressure and a
    stable position, and only from [NoTouch]; a move is reported only for a
    qualified sample of an open touch, and an end only for an unqualified
    one. *)
Theorem feed_notification_causes m frame :
  let r := feed frame m in
  (In touch_started r.2 ->
   state m = NoTouch /\ qualified frame = true /\ point_stable r.1 = true)
  /\ (In touch_moved r.2 ->
      state m = TouchDetected /\ qualified frame = true)
  /\ (In touch_ended r.2 ->
      state m = TouchDetected /\ qualified frame = false).
Proof.
  cbv zeta. pose proof (feed_cases m frame) as Hstep. cbv zeta in Hstep.
  destruct (state m);
    [destruct (qualified frame) eqn:Hq;
     destruct (point_stable (feed frame m).1) eqn:Hp; cbn [andb] in Hstep
    | destruct (qualified frame) eqn:Hq |];
    destruct Hstep as [Hs Hc]; rewrite Hc;
    (split; [| split]); intros Hin; cbn in Hin;
    solve [ exfalso; intuition discriminate | repeat split; reflexivity ].
Qed.

(** X3. [feed] never leaves the manager in an unrecognized state and makes
    at most one notification; from an unrecognized state it returns to
    [NoTouch] silently, whatever the sample. *)
Theorem feed_recovers m frame :
  state (feed frame m).1 <> Unrecognized
  /\ length (feed frame m).2 <= 1
  /\ (state m = Unrecognized ->
      state (feed frame m).1 = NoTouch /\ (feed frame m).2 = []).
Proof.
  pose proof (feed_cases m frame) as Hstep. cbv zeta in Hstep.
  destruct (state m);
    [destruct (qualified frame && point_stable (feed frame m).1)
    | destruct (qualified frame) |];
    destruct Hstep as [Hs Hc]; rewrite Hc, Hs; cbn;
    repeat split; try congruence; try lia; discriminate.
Qed.

(** A division by a zero range is an infinity or a NaN. *)
Lemma div_by_zero_range (a : F32.float) :
  (a / F32.of_int 0)%f32 = S754_nan
  \/ exists sign, (a / F32.of_int 0)%f32 = S754_infinity sign.
Proof. destruct a; cbn; eauto. Qed.

(** X4. A frame whose pressure range is zero (the two reference readings
    coincide) has a NaN resistance: it passes the pressure test under no
    threshold, so it starts no touch and ends an open one. *)
Theorem zero_pressure_range_never_qualifies frame m :
  Samples.yp (Frame.pressure frame) = Samples.xn (Frame.pressure frame) ->
  Metrics.r (calculate_metrics frame) = S754_nan
  /\ qualified frame = false
  /\ ~ In touch_started (feed frame m).2
  /\ (state m = TouchDetected -> (feed frame m).2 = [touch_ended]).
Proof.
  intros Hrange.
  assert (Hr : Metrics.r (calculate_metrics frame) = S754_nan).
  { unfold calculate_metrics. cbn [Metrics.r]. rewrite Hrange, Z.sub_diag.
    destruct (div_by_zero_range
                (F32.of_int (Samples.xp (Frame.pressure frame)
                             - Samples.xn (Frame.pressure frame))))
      as [-> | [s1 ->]];
      destruct (div_by_zero_range
                  (F32.of_int (Samples.yn (Frame.pressure frame)
                               - Samples.xn (Frame.pressure frame))))
        as [-> | [s2 ->]];
      cbn;
      match goal with |- (?a * S754_nan)%f32 = _ => destruct a; reflexivity end. }
  assert (Hq : qualified frame = false).
  { unfold qualified, pressure_qualified. rewrite Hr. apply andb_false_r. }
  split; [exact Hr |]. split; [exact Hq |].
  split.
  - pose proof (feed_cases m frame) as Hstep. cbv zeta in Hstep.
    rewrite Hq in Hstep. cbn [andb] in Hstep.
    destruct (state m); destruct Hstep as [_ ->]; cbn; intuition discriminate.
  - intros Hs. apply feed_TouchDetected_unqualified; assumption.
Qed.

End TouchManager.

(** ** Registration and the queues *)

Section Registration.
Context `{tcfg : Touch.Config} `{plat : Platform} `{appl : Application}.
Import Event Routing.

(** X5. A scoped registration leaves no trace: when the constructor
    returns, the handler is in the slot, and the destructor then gives back
    exactly the map the constructor found. *)
Theorem registration_scope (id : nat) (callback : Handler)
  (map_ : gmap nat Handler)
  (registration : MessageHandlerRegistration) (map' : gmap nat Handler) :
  construct id callback map_ = Returns (registration, map') ->
  map' !! id = Some callback
  /\ destroy registration map' = Returns map_.
Proof.
  unfold construct, destroy, register_handler, unregister_handler.
  destruct (ID_MAX <=? id) eqn:Hid; [discriminate |].
  destruct (map_ !! id) eqn:Hslot; [discriminate |].
  intros [= <- <-]. cbn [message_id]. rewrite Hid.
  split; [apply lookup_insert_eq |].
  f_equal. rewrite delete_insert_eq. apply delete_id. exact Hslot.
Qed.

(** X6. [unregister_handler] on a slot of the table never panics, empties
    the slot and touches no other; it can be repeated without effect, and
    the slot can then be registered again. *)
Theorem unregister_handler_clears (id : nat) (map_ : gmap nat Handler) :
  id < ID_MAX ->
  exists map',
    unregister_handler id map_ = Returns map'
    /\ map' !! id = None
    /\ (forall other, other <> id -> map' !! other = map_ !! other)
    /\ unregister_handler id map' = Returns map'
    /\ forall handler,
         register_handler id handler map' = Returns (<[id := handler]> map').
Proof.
  intros Hid. unfold unregister_handler, register_handler.
  destruct (Nat.leb_spec ID_MAX id) as [Hle | _]; [lia |].
  exists (delete id map_). split; [reflexivity |].
  split; [apply lookup_delete_eq |]. split.
  - intros other Hne. apply lookup_delete_ne. congruence.
  - split.
    + f_equal. apply delete_id, lookup_delete_eq.
    + intros handler. rewrite lookup_delete_eq. reflexivity.
Qed.

(** X7. Registrations for different IDs do not interfere: two scopes
    opened one after the other can be closed in either order, and the map
    is back to what it was. *)
Theorem registrations_independent (id1 id2 : nat) (cb1 cb2 : Handler)
  (map_ map1 map2 : gmap nat Handler) (r1 r2 : MessageHandlerRegistration) :
  construct id1 cb1 map_ = Returns (r1, map1) ->
  construct id2 cb2 map1 = Returns (r2, map2) ->
  id1 <> id2
  /\ (exists map3, destroy r1 map2 = Returns map3
                   /\ map3 !! id2 = Some cb2
                   /\ destroy r2 map3 = Returns map_)
  /\ (exists map3, destroy r2 map2 = Returns map3
                   /\ map3 !! id1 = Some cb1
                   /\ destroy r1 map3 = Returns map_).
Proof.
  unfold construct, destroy, register_handler, unregister_handler.
  destruct (ID_MAX <=? id1) eqn:Hid1; [discriminate |].
  destruct (map_ !! id1) eqn:Hslot1; [discriminate |].
  intros [= <- <-].
  destruct (ID_MAX <=? id2) eqn:Hid2; [discriminate |].
  destruct (<[id1 := cb1]> map_ !! id2) eqn:Hslot2; [discriminate |].
  intros [= <- <-]. cbn [message_id]. rewrite Hid1, Hid2.
  assert (Hne : id1 <> id2).
  { intros ->. rewrite lookup_insert_eq in Hslot2. discriminate. }
  rewrite lookup_insert_ne in Hslot2 by exact Hne.
  split; [exact Hne |]. split.
  - eexists. split; [reflexivity |]. split.
    + rewrite lookup_delete_ne by exact Hne. apply lookup_insert_eq.
    + f_equal. apply map_eq. intros k.
      destruct (decide (k = id2)) as [-> | Hk2].
      * rewrite lookup_delete_eq. congruence.
      * rewrite lookup_delete_ne by congruence.
        destruct (decide (k = id1)) as [-> | Hk1].
        -- rewrite lookup_delete_eq. congruence.
        -- rewrite lookup_delete_ne, !lookup_insert_ne by congruence.
           reflexivity.
  - eexists. split; [reflexivity |]. split.
    + rewrite lookup_delete_ne, lookup_insert_ne by congruence.
      apply lookup_insert_eq.
    + f_equal. apply map_eq. intros k.
      destruct (decide (k = id1)) as [-> | Hk1].
      * rewrite lookup_delete_eq. congruence.
      * rewrite lookup_delete_ne by congruence.
        destruct (decide (k = id2)) as [-> | Hk2].
        -- rewrite lookup_delete_eq. congruence.
        -- rewrite lookup_delete_ne, !lookup_insert_ne by congruence.
           reflexivity.
Qed.

End Registration.

Section Queues.
Context `{tcfg : Touch.Config} `{plat : Platform} `{appl : Application}.
Import Event Routing.

Implicit Types (s : System).

Lemma send_calls (message : Message.t) s :
  calls (send message s) = handled_by (message_map s) message.
Proof.
  unfold send, handled_by. destruct (Message.id message <? ID_MAX);
    [| reflexivity].
  unfold bind, gets. cbn [fst snd].
  destruct (message_map s !! Message.id message); reflexivity.
Qed.

(** X9. A frame sync paints the widget tree exactly once, as its last
    call, whether or not a handler is registered for the frame-sync
    message; a registered handler runs first, once. *)
Theorem handle_lcd_frame_sync_paints s :
  calls (handle_lcd_frame_sync s)
  = handled_by (message_map s) (Message.mk ID_DisplayFrameSync [])
    ++ [c_paint_widget_tree]
  /\ Forall (fun c => c <> c_paint_widget_tree)
       (handled_by (message_map s) (Message.mk ID_DisplayFrameSync []))
  /\ length (handled_by (message_map s) (Message.mk ID_DisplayFrameSync [])) <= 1
  /\ app_only s (state_after (handle_lcd_frame_sync s)).
Proof.
  unfold handle_lcd_frame_sync. rewrite calls_bind, state_after_bind, send_calls.
  split; [reflexivity |]. split; [| split; [| apply send_frame]];
    unfold handled_by; cbn [Message.id];
    destruct (ID_DisplayFrameSync <? ID_MAX); cbn; auto;
    destruct (message_map s !! ID_DisplayFrameSync); cbn; auto.
Qed.

End Queues.

(** ** Switches and the encoder *)

Section Switches.
Context `{tcfg : Touch.Config} `{plat : Platform} `{appl : Application}.
Import Event Routing.

Implicit Types (s : System).

(** X10. While the display is asleep a switch event is swallowed: the
    switches are read, the display is woken (display first, then backlight)
    if any switch is pressed, and no key reaches a widget or the focus
    manager. *)
Theorem handle_switches_asleep (inputs : Inputs) s :
  display_sleep s = true ->
  handle_switches inputs s
  = if existsb id (switches_state inputs)
    then (tt, with_display_sleep false s,
          [c_get_switches_state; c_display_wake; c_lcd_backlight true])
    else (tt, s, [c_get_switches_state]).
Proof.
  intros Hasleep. unfold handle_switches, bind, call, gets. cbn [fst snd].
  rewrite Hasleep. destruct (existsb id (switches_state inputs)); reflexivity.
Qed.

Lemma handle_key_routes (event : KeyEvent) s :
  Forall (fun c => key_of c = Some event) (calls (handle_key event s)).
Proof.
  unfold handle_key. rewrite calls_bind. apply Forall_app. split.
  - unfold event_bubble_key. rewrite calls_bind. cbn [gets calls snd app].
    rewrite calls_bind. cbn [gets result state_after fst snd].
    rewrite app_nil_r, app_nil_l.
    destruct (focus_widget (app s)) as [target|]; [| constructor].
    pose proof (bubble_key_walk target event s) as Hwalk. cbv zeta in Hwalk.
    assert (Hdeclined : forall line,
               Forall (fun c => key_of c = Some event) (declined event line)).
    { intros line. unfold declined. induction line; constructor; auto. }
    destruct Hwalk as [[_ ->] | (before & w & after & _ & _ & ->)].
    + apply Hdeclined.
    + apply Forall_app. split; [apply Hdeclined | repeat constructor].
  - destruct (result (event_bubble_key event s)); cbn; repeat constructor.
Qed.

Lemma handle_keys_routes (bits : list bool) (i : nat) s :
  Forall (fun c => exists k, key_of c = Some k
                             /\ i <= k /\ bits !! (k - i) = Some true)
         (calls (handle_keys bits i s)).
Proof.
  revert i s. induction bits as [|bit rest IH]; intros i s; [constructor |].
  cbn [handle_keys]. rewrite calls_bind. apply Forall_app. split.
  - destruct bit; cbn [when]; [| constructor].
    eapply Forall_impl; [apply handle_key_routes |].
    intros c Hc. exists i. rewrite Nat.sub_diag. auto.
  - eapply Forall_impl; [apply IH |].
    intros c (k & Hk & Hle & Hbit). exists k.
    split; [exact Hk |]. split; [lia |].
    replace (k - i) with (S (k - S i)) by lia. exact Hbit.
Qed.

(** X11. With the display awake, [handle_switches] reads the switches and
    then routes keys only: every further call is an [on_key] or a focus
    manager [update] whose key is the index of a switch that is pressed. *)
Theorem handle_switches_routes_pressed (inputs : Inputs) s :
  display_sleep s = false ->
  exists routed,
    calls (handle_switches inputs s) = c_get_switches_state :: routed
    /\ Forall (fun c => exists k, key_of c = Some k
                                  /\ switches_state inputs !! k = Some true)
              routed.
Proof.
  intros Hawake. rewrite (handle_switches_awake _ _ Hawake), calls_bind.
  eexists. split; [reflexivity |].
  eapply Forall_impl; [apply handle_keys_routes |].
  intros c (k & Hk & _ & Hbit). exists k. rewrite Nat.sub_0_r in Hbit. auto.
Qed.

(** The encoder loop stops at the first widget of the parent chain that
    consumes the event, or runs off the root. *)
Lemma bubble_encoder_walk (target : WidgetPtr) (event : EncoderEvent) s :
  calls (bubble_encoder target event s)
  = declined_encoder event (ancestors target)
  \/ exists before w after,
       ancestors target = before ++ w :: after
       /\ calls (bubble_encoder target event s)
          = declined_encoder event before ++ [c_on_encoder w event true].
Proof.
  revert s. induction target as [|i up IH]; intros s.
  - cbn [bubble_encoder ancestors]. unfold bind, widget_on_encoder.
    destruct (on_encoder [] event (app s)) as [[|] a]; cbn.
    + right. exists [], [], []. auto.
    + left. auto.
  - cbn [bubble_encoder ancestors]. unfold bind, widget_on_encoder.
    destruct (on_encoder (i :: up) event (app s)) as [[|] a].
    + right. exists [], (i :: up), (ancestors up). cbn. auto.
    + specialize (IH (with_app a s)).
      destruct (bubble_encoder up event (with_app a s)) as [[[] s1] t1].
      cbn [calls snd] in *.
      destruct IH as [Ht | (before & w & after & Hline & Ht)].
      * left. subst. auto.
      * right. exists ((i :: up) :: before), w, after.
        rewrite Hline. subst. auto.
Qed.

Lemma event_bubble_encoder_app_only (event : EncoderEvent) s :
  app_only s (state_after (event_bubble_encoder event s)).
Proof.
  unfold event_bubble_encoder. rewrite state_after_bind.
  cbn [gets result state_after fst snd].
  destruct (focus_widget (app s)) as [target|];
    [apply quiet_bubble_encoder | apply app_only_refl].
Qed.


(** The cast to [int32_t] recovers any step of less than half a turn of
    the 32-bit counter from the two positions, across the wrap. *)
Lemma to_int32_step (last step : Z) :
  (0 <= last < 2 ^ 32)%Z -> (- 2 ^ 31 <= step < 2 ^ 31)%Z ->
  to_int32 ((last + step) mod 2 ^ 32 - last) = step.
Proof.
  intros Hlast Hstep. unfold to_int32.
  assert (Hmod : (((last + step) mod 2 ^ 32 - last) mod 2 ^ 32
                  = step mod 2 ^ 32)%Z).
  { rewrite Zminus_mod, Zmod_mod, <- Zminus_mod. f_equal. lia. }
  rewrite Hmod.
  destruct (Z.ltb_spec (step mod 2 ^ 32) (2 ^ 31)) as [Hlt | Hge].
  - destruct (Z.neg_nonneg_cases step) as [Hneg | Hpos].
    + rewrite <- (Z.mod_add step 1) in Hlt by lia.
      rewrite Z.mod_small in Hlt by lia. lia.
    + apply Z.mod_small. lia.
  - destruct (Z.neg_nonneg_cases step) as [Hneg | Hpos].
    + rewrite <- (Z.mod_add step 1) by lia. rewrite Z.mod_small by lia. lia.
    + rewrite Z.mod_small in Hge by lia. lia.
Qed.

(** X13. [handle_encoder] reads the position once, remembers it, and
    bubbles the signed step since the last read: for a counter that moved
    by [step], less than half a turn either way, the event is [step] even
    when the 32-bit counter wrapped in between. *)
Theorem handle_encoder_step (inputs : Inputs) (step : Z) s :
  (0 <= encoder_last s < 2 ^ 32)%Z ->
  (- 2 ^ 31 <= step < 2 ^ 31)%Z ->
  encoder_position inputs = ((encoder_last s + step) mod 2 ^ 32)%Z ->
  let s1 := with_encoder_last (encoder_position inputs) s in
  calls (handle_encoder inputs s)
  = c_get_encoder_position :: calls (event_bubble_encoder step s1)
  /\ state_after (handle_encoder inputs s)
     = state_after (event_bubble_encoder step s1)
  /\ encoder_last (state_after (handle_encoder inputs s))
     = encoder_position inputs.
Proof.
  intros Hlast Hstep Hpos s1.
  assert (Hrun : handle_encoder inputs s
                 = (tt, state_after (event_bubble_encoder step s1),
                    c_get_encoder_position
                      :: calls (event_bubble_encoder step s1))).
  { unfold handle_encoder, bind, call, gets, modify. cbn [fst snd].
    rewrite Hpos at 1. rewrite (to_int32_step _ _ Hlast Hstep). fold s1.
    destruct (event_bubble_encoder step s1) as [[[] s2] t2]. reflexivity. }
  rewrite Hrun. cbn [calls state_after fst snd].
  split; [reflexivity |]. split; [reflexivity |].
  pose proof (event_bubble_encoder_app_only step s1) as Ha.
  unfold app_only in Ha. rewrite Ha. reflexivity.
Qed.

End Switches.

(** ** Hit testing, further *)

Section HitTestTrace.
Context `{tcfg : Touch.Config} `{plat : Platform} `{appl : Application}.
Import Event Routing.

Implicit Types (s : System) (event : TouchEvent.t).

(** The calls of a search: refusals, then at most one acceptance. *)
Lemma touch_widget_trace (w : Widget) : forall p event s,
  let r := touch_widget w p event s in
  match result r with
  | Some t =>
      exists probes,
        calls r = probes ++ [c_on_touch t event true]
        /\ Forall (declined_touch event) probes
  | None => Forall (declined_touch event) (calls r)
  end.
Proof.
  induction w as [h rect cs IH] using Widget_children_ind.
  intros p event s. cbv zeta. rewrite touch_widget_node.
  destruct (negb h); [| constructor].
  assert (Hloop : forall i s,
             let r := touch_children cs i p event s in
             match result r with
             | Some t =>
                 exists probes,
                   calls r = probes ++ [c_on_touch t event true]
                   /\ Forall (declined_touch event) probes
             | None => Forall (declined_touch event) (calls r)
             end).
  { clear -IH. induction IH as [|child rest Hchild _ IHrest]; intros i s.
    - constructor.
    - cbv zeta. cbn [touch_children]. unfold bind.
      specialize (Hchild (i :: p) event s). cbv zeta in Hchild.
      destruct (touch_widget child (i :: p) event s) as [[[t|] s1] t1];
        cbn in *.
      + destruct Hchild as (probes & -> & Hprobes).
        exists probes. rewrite app_nil_r. auto.
      + specialize (IHrest (S i) s1). cbv zeta in IHrest.
        destruct (touch_children rest (S i) p event s1) as [[[t|] s2] t2];
          cbn in *.
        * destruct IHrest as (probes & -> & Hprobes).
          exists (t1 ++ probes). rewrite app_assoc.
          split; [reflexivity | apply Forall_app; auto].
        * apply Forall_app; auto. }
  specialize (Hloop 0%nat s). cbv zeta in Hloop. unfold bind.
  destruct (touch_children cs 0 p event s) as [[[t|] s1] t1];
    cbn in *.
  - destruct Hloop as (probes & -> & Hprobes).
    exists probes. rewrite app_nil_r. auto.
  - destruct (Rect.contains rect (TouchEvent.point event)).
    + unfold widget_on_touch.
      destruct (on_touch p event (app s1)) as [[|] a]; cbn.
      * exists t1. auto.
      * apply Forall_app. split; [exact Hloop |].
        repeat constructor. exists p. reflexivity.
    + cbn. rewrite app_nil_r. exact Hloop.
Qed.

(** X17. A hit test stops at the first acceptance: when it returns a
    widget, its last call is that widget's [on_touch], which returned true,
    and every call before it is an [on_touch] that returned false; when it
    returns null, every widget it asked returned false. *)
Theorem touch_widget_stops_at_first_taker (w : Widget) (p : WidgetPtr) event s :
  let r := touch_widget w p event s in
  (forall t, result r = Some t ->
     exists probes,
       calls r = probes ++ [c_on_touch t event true]
       /\ Forall (declined_touch event) probes)
  /\ (result r = None -> Forall (declined_touch event) (calls r)).
Proof.
  cbv zeta. pose proof (touch_widget_trace w p event s) as Htrace.
  cbv zeta in Htrace.
  destruct (result (touch_widget w p event s)) as [t|].
  - split; [intros ? [= <-]; exact Htrace | discriminate].
  - split; [discriminate | intros _; exact Htrace].
Qed.

(** X18. A hit test asks visible widgets under the point only: every
    [on_touch] it calls is on a widget of the tree that is not hidden, has
    no hidden ancestor, and whose screen rectangle contains the event
    point. *)
Theorem touch_widget_asks_visible_under_point (w : Widget) :
  forall (p : WidgetPtr) event s,
    Forall (fun c =>
              exists q consumed w',
                c = c_on_touch (q ++ p) event consumed
                /\ subwidget w (rev q) = Some w'
                /\ hidden w' = false
                /\ Rect.contains (screen_rect w') (TouchEvent.point event)
                   = true)
           (calls (touch_widget w p event s)).
Proof. exact (touch_widget_probes w). Qed.

(** X19. A [Start] event reaches the widget it lands on twice: the hit
    test ends with that widget accepting the event, and the delivery that
    follows calls its [on_touch] again with the same event; every other
    call of the [Start] is a refusal. *)
Theorem start_is_delivered_twice event s (w : WidgetPtr) :
  TouchEvent.type event = TouchEvent.Start ->
  result (touch_widget (top_widget s) [] event s) = Some w ->
  exists probes consumed,
    calls (on_touch_event event s)
    = probes ++ [c_on_touch w event true; c_on_touch w event consumed]
    /\ Forall (declined_touch event) probes.
Proof.
  intros Hstart Hhit. rewrite (on_touch_event_start _ _ Hstart).
  pose proof (touch_widget_trace (top_widget s) [] event s) as Htrace.
  cbv zeta in Htrace. rewrite Hhit in Htrace |- *.
  destruct Htrace as (probes & Hcalls & Hprobes).
  match goal with |- context [widget_on_touch w event ?s1] =>
    destruct (widget_on_touch_call w event s1) as [consumed Hcall] end.
  exists probes, consumed.
  match goal with |- calls (_, _, ?t) = _ /\ _ => change (calls (tt, _, t)) with t end.
  rewrite Hcalls, Hcall, <- app_assoc. auto.
Qed.

(** X20. When the contact is lost during a touch, the touch handler reads
    the frame, the manager returns to [NoTouch], and the captured widget
    receives exactly one [End] event, at the filtered point; the widget
    stays captured. *)
Theorem handle_touch_contact_lost (inputs : Inputs) s (w : WidgetPtr) :
  Touch.state (touch_manager s) = Touch.TouchDetected ->
  Touch.qualified (touch_frame inputs) = false ->
  captured_widget s = Some w ->
  let m' := (Touch.feed (touch_frame inputs) (touch_manager s)).1 in
  let finish := TouchEvent.mk (Touch.filtered_point m') TouchEvent.End_ in
  (exists consumed,
      calls (handle_touch inputs s)
      = [c_get_touch_frame; c_on_touch w finish consumed])
  /\ Touch.state (touch_manager (state_after (handle_touch inputs s)))
     = Touch.NoTouch
  /\ captured_widget (state_after (handle_touch inputs s)) = Some w.
Proof.
  intros Hstate Hlost Hcap m' finish.
  destruct (feed_TouchDetected_unqualified _ _ Hstate Hlost) as [Hs' Hfired].
  fold m' in Hs'.
  assert (Hrun : handle_touch inputs s
                 = (tt, state_after (on_touch_event finish
                                       (with_touch_manager m' s)),
                    c_get_touch_frame
                      :: calls (on_touch_event finish (with_touch_manager m' s)))).
  { unfold handle_touch, touch_manager_feed, bind, call, gets, modify.
    cbn [fst snd]. subst m' finish.
    destruct (Touch.feed (touch_frame inputs) (touch_manager s)) as [m1 fired].
    cbn [fst snd] in *. subst fired. cbn [map on_touch_events Touch.fire_event].
    unfold bind, ret.
    destruct (on_touch_event _ (with_touch_manager m1 s)) as [[[] s2] t2].
    cbn. rewrite !app_nil_r. reflexivity. }
  rewrite Hrun. cbn [calls state_after fst snd].
  assert (Hend : TouchEvent.type finish <> TouchEvent.Start) by discriminate.
  rewrite (on_touch_event_captured _ _ Hend).
  cbn [captured_widget with_touch_manager]. rewrite Hcap.
  cbn [calls state_after fst snd].
  destruct (widget_on_touch_call w finish (with_touch_manager m' s))
    as [consumed Hcall].
  pose proof (widget_on_touch_app_only w finish (with_touch_manager m' s)) as Ha.
  unfold app_only in Ha.
  split; [exists consumed; rewrite Hcall; reflexivity |].
  rewrite Ha. cbn. auto.
Qed.

End HitTestTrace.

(** ** The further properties at work on the fixtures *)

Section MoreFixtures.
Import Touch Event Routing Fixture.

Lemma zero_pressure_range_never_qualifies_witness :
  Samples.yp (Frame.pressure flat) = Samples.xn (Frame.pressure flat)
  /\ Metrics.r (calculate_metrics flat) = S754_nan
  /\ qualified flat = false
  /\ ~ In touch_started (feed flat touched).2
  /\ (state touched = TouchDetected -> (feed flat touched).2 = [touch_ended]).
Proof.
  assert (H : Samples.yp (Frame.pressure flat) = Samples.xn (Frame.pressure flat))
    by reflexivity.
  split; [exact H |].
  exact (zero_pressure_range_never_qualifies flat touched H).
Defined.

Section Eager.
#[local] Existing Instance eager.

Lemma registration_scope_witness :
  construct 3 7%nat ∅ = Returns (mkRegistration 3, {[3%nat := 7%nat]})
  /\ ({[3%nat := 7%nat]} : gmap nat Handler) !! 3%nat = Some 7%nat
  /\ destroy (mkRegistration 3) {[3%nat := 7%nat]} = Returns ∅.
Proof.
  assert (H : construct 3 7%nat ∅
              = Returns (mkRegistration 3, {[3%nat := 7%nat]}))
    by reflexivity.
  split; [exact H |].
  exact (registration_scope 3 7%nat ∅ (mkRegistration 3) {[3%nat := 7%nat]} H).
Defined.

Lemma unregister_handler_clears_witness :
  (3 < ID_MAX)%nat
  /\ exists map',
       unregister_handler 3 ({[3%nat := 7%nat]} : gmap nat Handler) = Returns map'
       /\ map' !! 3%nat = None
       /\ (forall other, other <> 3%nat ->
             map' !! other = ({[3%nat := 7%nat]} : gmap nat Handler) !! other)
       /\ unregister_handler 3 map' = Returns map'
       /\ forall handler,
            register_handler 3 handler map' = Returns (<[3%nat := handler]> map').
Proof.
  assert (H : (3 < ID_MAX)%nat) by (cbn; lia).
  split; [exact H |].
  exact (unregister_handler_clears 3 {[3%nat := 7%nat]} H).
Defined.

Lemma registrations_independent_witness :
  let map1 : gmap nat Handler := {[3%nat := 7%nat]} in
  let map2 : gmap nat Handler := <[5%nat := 8%nat]> map1 in
  (construct 3 7%nat ∅ = Returns (mkRegistration 3, map1)
   /\ construct 5 8%nat map1 = Returns (mkRegistration 5, map2))
  /\ 3%nat <> 5%nat
  /\ (exists map3, destroy (mkRegistration 3) map2 = Returns map3
                   /\ map3 !! 5%nat = Some 8%nat
                   /\ destroy (mkRegistration 5) map3 = Returns ∅)
  /\ (exists map3, destroy (mkRegistration 5) map2 = Returns map3
                   /\ map3 !! 3%nat = Some 7%nat
                   /\ destroy (mkRegistration 3) map3 = Returns ∅).
Proof.
  intros map1 map2.
  assert (H1 : construct 3 7%nat ∅ = Returns (mkRegistration 3, map1))
    by reflexivity.
  assert (H2 : construct 5 8%nat map1 = Returns (mkRegistration 5, map2))
    by reflexivity.
  split; [split; assumption |].
  exact (registrations_independent 3 5 7%nat 8%nat ∅ map1 map2
           (mkRegistration 3) (mkRegistration 5) H1 H2).
Defined.

Lemma start_is_delivered_twice_witness :
  let s := system eager 0%nat overlapping None false in
  (TouchEvent.type press = TouchEvent.Start
   /\ result (touch_widget (top_widget s) [] press s) = Some [0%nat])
  /\ exists probes consumed,
       calls (on_touch_event press s)
       = probes ++ [c_on_touch [0%nat] press true;
                    c_on_touch [0%nat] press consumed]
       /\ Forall (declined_touch press) probes.
Proof.
  intros s.
  assert (H1 : TouchEvent.type press = TouchEvent.Start) by reflexivity.
  assert (H2 : result (touch_widget (top_widget s) [] press s) = Some [0%nat])
    by (vm_compute; reflexivity).
  split; [split; assumption |].
  exact (start_is_delivered_twice press s [0%nat] H1 H2).
Defined.

Lemma handle_touch_contact_lost_witness :
  let s := with_touch_manager touched
             (system eager 0%nat overlapping (Some [0%nat]) false) in
  (state (touch_manager s) = TouchDetected
   /\ qualified (touch_frame slipping) = false
   /\ captured_widget s = Some [0%nat])
  /\ let m' := (feed (touch_frame slipping) (touch_manager s)).1 in
     let finish := TouchEvent.mk (filtered_point m') TouchEvent.End_ in
     (exists consumed,
         calls (handle_touch slipping s)
         = [c_get_touch_frame; c_on_touch [0%nat] finish consumed])
     /\ state (touch_manager (state_after (handle_touch slipping s)))
        = NoTouch
     /\ captured_widget (state_after (handle_touch slipping s)) = Some [0%nat].
Proof.
  intros s.
  assert (H1 : state (touch_manager s) = TouchDetected) by reflexivity.
  assert (H2 : qualified (touch_frame slipping) = false)
    by (vm_compute; reflexivity).
  assert (H3 : captured_widget s = Some [0%nat]) by reflexivity.
  split; [repeat split; assumption |].
  exact (handle_touch_contact_lost slipping s [0%nat] H1 H2 H3).
Defined.

Lemma dispatch_keeps_capture_witness :
  let s := system eager 0%nat overlapping (Some [1%nat]) false in
  let events := 255%Z in
  ~ In touch_started (feed (touch_frame wake) (touch_manager s)).2
  /\ captured_widget (state_after (dispatch events wake s)) = captured_widget s.
Proof.
  intros s events.
  assert (H : ~ In touch_started (feed (touch_frame wake) (touch_manager s)).2)
    by (vm_compute; tauto).
  split; [exact H |].
  exact (dispatch_keeps_capture events wake s H).
Defined.

End Eager.

Section Shy.
#[local] Existing Instance shy.

Lemma handle_switches_asleep_witness :
  let s := system shy 0%nat bare None true in
  display_sleep s = true
  /\ handle_switches wake s
     = if existsb id (switches_state wake)
       then (tt, with_display_sleep false s,
             [c_get_switches_state; c_display_wake; c_lcd_backlight true])
       else (tt, s, [c_get_switches_state]).
Proof.
  intros s.
  assert (H : display_sleep s = true) by reflexivity.
  split; [exact H |].
  exact (handle_switches_asleep wake s H).
Defined.

Lemma handle_switches_routes_pressed_witness :
  let s := system shy 0%nat overlapping None false in
  display_sleep s = false
  /\ exists routed,
       calls (handle_switches wake s) = c_get_switches_state :: routed
       /\ Forall (fun c => exists k, key_of c = Some k
                                     /\ switches_state wake !! k = Some true)
                 routed.
Proof.
  intros s.
  assert (H : display_sleep s = false) by reflexivity.
  split; [exact H |].
  exact (handle_switches_routes_pressed wake s H).
Defined.

(** The pressed switch is switch 1: key 1 goes up the parent chain and then
    to the focus manager; switch 0 raises nothing. *)
Example handle_switches_routes_pressed_trace :
  let s := system shy 0%nat overlapping None false in
  calls (handle_switches wake s)
  = [c_get_switches_state;
     c_on_key [1; 0]%nat 1%nat false; c_on_key [0%nat] 1%nat false;
     c_on_key [] 1%nat false; c_focus_manager_update 1%nat].
Proof. vm_compute. reflexivity. Qed.

(** The counter was at its last value and now reads 2: a step of 3. *)
Lemma handle_encoder_step_witness :
  let s := with_encoder_last 4294967295 (system shy 0%nat overlapping None false) in
  let step := 3%Z in
  ((0 <= encoder_last s < 2 ^ 32)%Z
   /\ (- 2 ^ 31 <= step < 2 ^ 31)%Z
   /\ encoder_position slipping = ((encoder_last s + step) mod 2 ^ 32)%Z)
  /\ let s1 := with_encoder_last (encoder_position slipping) s in
     calls (handle_encoder slipping s)
     = c_get_encoder_position :: calls (event_bubble_encoder step s1)
     /\ state_after (handle_encoder slipping s)
        = state_after (event_bubble_encoder step s1)
     /\ encoder_last (state_after (handle_encoder slipping s))
        = encoder_position slipping.
Proof.
  intros s step.
  assert (H1 : (0 <= encoder_last s < 2 ^ 32)%Z) by (cbn; lia).
  assert (H2 : (- 2 ^ 31 <= step < 2 ^ 31)%Z) by (subst step; lia).
  assert (H3 : encoder_position slipping
               = ((encoder_last s + step) mod 2 ^ 32)%Z) by reflexivity.
  split; [repeat split; try apply H1; try apply H2; assumption |].
  exact (handle_encoder_step slipping step s H1 H2 H3).
Defined.

Example handle_encoder_step_trace :
  let s := with_encoder_last 4294967295 (system shy 0%nat overlapping None false) in
  calls (handle_encoder slipping s)
  = [c_get_encoder_position;
     c_on_encoder [1; 0]%nat 3%Z false; c_on_encoder [0%nat] 3%Z false;
     c_on_encoder [] 3%Z false].
Proof. vm_compute. reflexivity. Qed.

(** Asleep, with every bit pending and one switch pressed: no handler
    runs and no key is routed, the switch wakes the display, and the touch
    panel is serviced in that cycle. *)
Lemma dispatch_services_witness :
  let s := system shy 0%nat bare None true in
  let events := 255%Z in
  (no_handler_runs events wake s /\ no_key_routed events wake s)
  /\ serviced TouchPanel (calls (dispatch events wake s))
     = gate_open events wake s && pending events (mask_of TouchPanel).
Proof.
  intros s events.
  assert (H1 : no_handler_runs events wake s)
    by (split; intros _; constructor).
  assert (H2 : no_key_routed events wake s) by (left; reflexivity).
  split; [split; [exact H1 | exact H2] |].
  exact (dispatch_services events wake TouchPanel s H1 H2).
Defined.

End Shy.

End MoreFixtures.
